(** * Retail inventory analytics: metric derivation and segmentation

    A shallow embedding of [retail_correlation_analysis.py] (class
    [RetailAnalytics]) together with the table schema of
    [retail_data_processor.py].

    Numeric model.  The SQL query of [load_data] works on INT and DECIMAL
    columns, and pandas carries the result on as int64/float64 columns.
    Integer columns are modelled as [Z]; every decimal or floating column is
    modelled as a rational [Q], compared with [==].  MySQL's division of two
    INT columns gives a DECIMAL with four decimals, and is modelled with that
    rounding ([sql_int_div]); sums, products and the other quotients are
    exact: the rounding of binary floating point is not modelled.  A NaN
    cell is [None]; a comparison against NaN is false, as in pandas.

    The library calls of the source ([pd.cut], [Series.quantile], [groupby],
    [idxmax], [idxmin], [sort_values], [dropna]) are modelled by functions
    that follow their documented behaviour; [scipy.stats.pearsonr] stays a
    parameter. *)

From Stdlib Require Import ZArith QArith Qround Qabs Lqa Lia.
From Stdlib Require Import List Bool Ascii String Permutation Sorted OrderedTypeEx.
Import ListNotations.

Local Open Scope Q_scope.

(** ** Rational helpers *)

Definition Qlt_bool (x y : Q) : bool := negb (Qle_bool y x).

Fixpoint Qsum (l : list Q) : Q :=
  match l with
  | [] => 0
  | x :: l' => x + Qsum l'
  end.

(** ** The stored table (schema of [create_table_schema]) *)

Record retail_inventory : Type := {
  date : string;
  store_id : string;
  product_id : string;
  category : string;
  region : string;
  inventory_level : Z;
  units_sold : Z;
  units_ordered : Z;
  demand_forecast : Q;
  price : Q;
  discount : Z;
  weather_condition : string;
  holiday_promotion : Z;
  competitor_pricing : Q;
  seasonality : string
}.

(** ** [load_data]: the analysis query *)

(** A row of the data frame right after [pd.read_sql]: the stored columns
    the query selects and its five computed columns. *)
Record loaded_row : Type := {
  stored : retail_inventory;
  gross_revenue : Q;
  net_revenue : Q;
  overstock_units : Z;
  turnover_ratio : Q;
  profit_margin : Q
}.

(** [(1 - discount / 100.0)] *)
Definition discount_factor (r : retail_inventory) : Q :=
  1 - inject_Z (discount r) / 100.

(** Rounding to the nearest integer, a half away from zero (MySQL's rounding
    of exact-value numbers). *)
Definition round_half_away (x : Q) : Z :=
  if Qle_bool 0 x then Qfloor (x + (1 # 2)) else (- Qfloor (- x + (1 # 2)))%Z.

(** MySQL's [a / b] on two INT columns: the quotient as a DECIMAL with
    [div_precision_increment] = 4 decimals, rounded.  ([b = 0] gives NULL in
    MySQL; the query divides under [CASE WHEN inventory_level > 0] only.) *)
Definition sql_int_div (a b : Z) : Q :=
  inject_Z (round_half_away (inject_Z a / inject_Z b * 10000)) / 10000.

(** [CASE WHEN inventory_level > 0 THEN units_sold / inventory_level ELSE 0 END] *)
Definition sql_turnover_ratio (r : retail_inventory) : Q :=
  if (0 <? inventory_level r)%Z
  then sql_int_div (units_sold r) (inventory_level r)
  else 0.

(** [CASE WHEN units_sold > 0
     THEN (units_sold * price * (1 - discount / 100.0)) / (units_sold * price)
     ELSE 0 END] *)
Definition sql_profit_margin (r : retail_inventory) : Q :=
  if (0 <? units_sold r)%Z
  then (inject_Z (units_sold r) * price r * discount_factor r)
       / (inject_Z (units_sold r) * price r)
  else 0.

(** The SELECT list. *)
Definition select_row (r : retail_inventory) : loaded_row := {|
  stored := r;
  gross_revenue := inject_Z (units_sold r) * price r;
  net_revenue := inject_Z (units_sold r) * price r * discount_factor r;
  overstock_units := (inventory_level r - units_sold r)%Z;
  turnover_ratio := sql_turnover_ratio r;
  profit_margin := sql_profit_margin r
|}.

(** [WHERE inventory_level > 0 AND price > 0] *)
Definition where_clause (r : retail_inventory) : bool :=
  (0 <? inventory_level r)%Z && Qlt_bool 0 (price r).

Definition load_data (db : list retail_inventory) : list loaded_row :=
  map select_row (filter where_clause db).

(** ** [pd.cut] with the default [right=True] *)

(** A bin edge: a number or [float('inf')]. *)
Inductive edge : Type :=
| Finite (q : Q)
| Infinity.

(** [lo < x] *)
Definition above (lo : edge) (x : Q) : bool :=
  match lo with
  | Finite q => Qlt_bool q x
  | Infinity => false
  end.

(** [x <= hi] *)
Definition upto (x : Q) (hi : edge) : bool :=
  match hi with
  | Finite q => Qle_bool x q
  | Infinity => true
  end.

(** [cut x lo bins labels]: the label of the first interval [(lo, hi]] that
    holds [x], walking the edges left to right; [None] (NaN) when [x] lies in
    no interval. *)
Fixpoint cut {L : Type} (x : Q) (lo : edge) (bins : list edge)
    (labels : list L) : option L :=
  match bins, labels with
  | hi :: bins', l :: labels' =>
      if above lo x && upto x hi then Some l else cut x hi bins' labels'
  | _, _ => None
  end.

Definition pd_cut {L : Type} (x : Q) (bins : list edge) (labels : list L)
    : option L :=
  match bins with
  | [] => None
  | lo :: bins' => cut x lo bins' labels
  end.

(** ** [calculate_inventory_metrics] *)

Inductive inventory_label : Type :=
| FastMoving
| Normal
| SlowMoving
| DeadStock.

Definition label_name (l : inventory_label) : string :=
  match l with
  | FastMoving => "Fast Moving"
  | Normal => "Normal"
  | SlowMoving => "Slow Moving"
  | DeadStock => "Dead Stock"
  end.

(** A row of the data frame once the metric columns are added. *)
Record metric_row : Type := {
  loaded : loaded_row;
  inventory_days : Q;
  profit_per_unit : Q;
  efficiency_score : Q;
  inventory_category : option inventory_label
}.

(** [df['inventory_level'] / (df['units_sold'] + 0.1) * 30] *)
Definition days_on_hand (level sold : Z) : Q :=
  inject_Z level / (inject_Z sold + (1 # 10)) * 30.

(** [pd.cut(df['inventory_days'], bins=[0, 15, 30, 60, float('inf')],
            labels=['Fast Moving', 'Normal', 'Slow Moving', 'Dead Stock'])] *)
Definition categorize (days : Q) : option inventory_label :=
  pd_cut days [Finite 0; Finite 15; Finite 30; Finite 60; Infinity]
         [FastMoving; Normal; SlowMoving; DeadStock].

(** The thresholds in the words of the specification, for comparison:
    [0,15) is Fast Moving, [15,30) Normal, [30,60) Slow Moving and
    [60,inf) Dead Stock; a negative value has no category. *)
Definition spec_inventory_category (days : Q) : option inventory_label :=
  if Qlt_bool days 0 then None
  else if Qlt_bool days 15 then Some FastMoving
  else if Qlt_bool days 30 then Some Normal
  else if Qlt_bool days 60 then Some SlowMoving
  else Some DeadStock.

Definition add_metrics (r : loaded_row) : metric_row :=
  let days := days_on_hand (inventory_level (stored r)) (units_sold (stored r)) in
  {| loaded := r;
     inventory_days := days;
     profit_per_unit := net_revenue r / (inject_Z (units_sold (stored r)) + (1 # 10));
     efficiency_score := turnover_ratio r * profit_margin r * 100;
     inventory_category := categorize days |}.

Definition calculate_inventory_metrics (df : list loaded_row) : list metric_row :=
  map add_metrics df.

(** The frame the analyses run on, as [main] builds it. *)
Definition analysis_frame (db : list retail_inventory) : list metric_row :=
  calculate_inventory_metrics (load_data db).

(** ** Exceptions and the [self.df is None] guard *)

Inductive exn : Type :=
| ValueError
| IndexError.

Inductive result (A : Type) : Type :=
| Ok (a : A)
| Raise (e : exn).

Arguments Ok {A} a.
Arguments Raise {A} e.

Definition bind {A B : Type} (m : result A) (k : A -> result B) : result B :=
  match m with
  | Ok a => k a
  | Raise e => Raise e
  end.

Notation "x <- m ;; k" := (bind m (fun x => k))
  (at level 61, m at next level, right associativity).

(** Every analysis method starts with
    [if self.df is None: print(...); return]: without a frame it returns
    [None], otherwise it runs its body. *)
Definition with_frame {A B : Type} (self_df : option A) (body : A -> result B)
    : result (option B) :=
  match self_df with
  | None => Ok None
  | Some df => b <- body df ;; Ok (Some b)
  end.

(** ** Sorting *)

Section Sorting.
Context {A : Type} (leb : A -> A -> bool).

Fixpoint insert (x : A) (l : list A) : list A :=
  match l with
  | [] => [x]
  | y :: l' => if leb x y then x :: l else y :: insert x l'
  end.

(** A stable ascending sort: equal elements keep their order. *)
Fixpoint stable_sort (l : list A) : list A :=
  match l with
  | [] => []
  | x :: l' => insert x (stable_sort l')
  end.
End Sorting.

(** ** [Series.quantile] (linear interpolation) *)

(** With [n] values sorted as [s], the quantile [q] sits at the position
    [q * (n - 1)]: the value at the floor of the position plus the fraction
    of the step to the next value (computed exactly).  An empty column gives
    NaN. *)
Definition quantile (q : Q) (col : list Q) : option Q :=
  match stable_sort Qle_bool col with
  | [] => None
  | (v0 :: _) as s =>
      let pos := q * inject_Z (Z.of_nat (List.length s) - 1) in
      let lo := Z.to_nat (Qfloor pos) in
      let hi := Nat.min (S lo) (List.length s - 1) in
      let frac := pos - inject_Z (Qfloor pos) in
      Some (nth lo s v0 + (nth hi s v0 - nth lo s v0) * frac)
  end.

(** [x > t] and [x < t] against a threshold that may be NaN. *)
Definition gt_threshold (x : Q) (t : option Q) : bool :=
  match t with
  | Some t => Qlt_bool t x
  | None => false
  end.

Definition lt_threshold (x : Q) (t : option Q) : bool :=
  match t with
  | Some t => Qlt_bool x t
  | None => false
  end.

(** Equality of thresholds: both NaN, or equal numbers. *)
Definition same_threshold (a b : option Q) : Prop :=
  match a, b with
  | Some x, Some y => x == y
  | None, None => True
  | _, _ => False
  end.

(** ** [identify_problem_areas] *)

Definition overstock_col (m : metric_row) : Q :=
  inject_Z (overstock_units (loaded m)).

(** [(df['inventory_days'] > 45) & (df['turnover_ratio'] < 0.3)] *)
Definition is_slow_moving (m : metric_row) : bool :=
  Qlt_bool 45 (inventory_days m)
  && Qlt_bool (turnover_ratio (loaded m)) (3 # 10).

(** [(df['overstock_units'] > df['overstock_units'].quantile(0.8)) &
     (df['efficiency_score'] < df['efficiency_score'].quantile(0.3))] *)
Definition is_overstocked (df : list metric_row) (m : metric_row) : bool :=
  gt_threshold (overstock_col m) (quantile (8 # 10) (map overstock_col df))
  && lt_threshold (efficiency_score m) (quantile (3 # 10) (map efficiency_score df)).

(** [(df['inventory_days'] > 90) & (df['units_sold'] <= 1)] *)
Definition is_dead_stock (m : metric_row) : bool :=
  Qlt_bool 90 (inventory_days m)
  && (units_sold (stored (loaded m)) <=? 1)%Z.

Record problem_areas : Type := {
  slow_moving : list metric_row;
  overstocked : list metric_row;
  dead_stock : list metric_row
}.

Definition problem_segments (df : list metric_row) : problem_areas := {|
  slow_moving := filter is_slow_moving df;
  overstocked := filter (is_overstocked df) df;
  dead_stock := filter is_dead_stock df
|}.

Definition identify_problem_areas (self_df : option (list metric_row))
    : result (option problem_areas) :=
  with_frame self_df (fun df => Ok (problem_segments df)).

(** ** [groupby] and its reductions *)

Section GroupBy.
Context {K R : Type} (cmp : K -> K -> comparison).

(** Groups are kept in ascending key order; inside a group the rows keep
    their order in the frame. *)
Fixpoint add_to_group (k : K) (r : R) (gs : list (K * list R))
    : list (K * list R) :=
  match gs with
  | [] => [(k, [r])]
  | (k', rs) :: gs' =>
      match cmp k k' with
      | Eq => (k', rs ++ [r]) :: gs'
      | Lt => (k, [r]) :: gs
      | Gt => (k', rs) :: add_to_group k r gs'
      end
  end.

Definition groupby (key : R -> K) (df : list R) : list (K * list R) :=
  fold_left (fun gs r => add_to_group (key r) r gs) df [].

Definition agg {V : Type} (f : list R -> V) (gs : list (K * list R))
    : list (K * V) :=
  map (fun g => (fst g, f (snd g))) gs.
End GroupBy.

Definition col_sum {R : Type} (col : R -> Q) (rows : list R) : Q :=
  Qsum (map col rows).

(** The mean of a group; [groupby] never makes an empty group. *)
Definition col_mean {R : Type} (col : R -> Q) (rows : list R) : Q :=
  Qsum (map col rows) / inject_Z (Z.of_nat (List.length rows)).

(** The sum of the group sums of a grouped table. *)
Definition groups_total {K R : Type} (col : R -> Q) (gs : list (K * list R)) : Q :=
  Qsum (map snd (agg (col_sum col) gs)).

(** [df.groupby(key)[col].sum()], the sums being exact. *)
Definition groupby_sum {K R : Type} (cmp : K -> K -> comparison)
    (key : R -> K) (col : R -> Q) (df : list R) : list (K * Q) :=
  agg (col_sum col) (groupby cmp key df).

(** The same reduction on an int64 column: the sums are integers. *)
Fixpoint Zsum (l : list Z) : Z :=
  match l with
  | [] => 0%Z
  | x :: l' => (x + Zsum l')%Z
  end.

Definition groupby_sum_int {K R : Type} (cmp : K -> K -> comparison)
    (key : R -> K) (col : R -> Z) (df : list R) : list (K * Z) :=
  agg (fun rows => Zsum (map col rows)) (groupby cmp key df).

(** Order of a two-column key, as for [groupby(['seasonality', 'category'])]. *)
Definition compare2 (a b : string * string) : comparison :=
  match String.compare (fst a) (fst b) with
  | Eq => String.compare (snd a) (snd b)
  | c => c
  end.

(** [round(3)]: to the nearest thousandth, halves to the even neighbour.
    (numpy rounds the float64 value of the cell, so that a cell written with
    a 5 in the fourth decimal goes up or down with its binary expansion; no
    property below turns on such a cell.) *)
Definition rint (x : Q) : Z :=
  let f := Qfloor x in
  match Qcompare (x - inject_Z f) (1 # 2) with
  | Lt => f
  | Gt => (f + 1)%Z
  | Eq => if Z.even f then f else (f + 1)%Z
  end.

Definition round3 (x : Q) : Q := inject_Z (rint (x * 1000)) / 1000.

Definition category_of (m : metric_row) : string := category (stored (loaded m)).
Definition region_of (m : metric_row) : string := region (stored (loaded m)).
Definition seasonality_of (m : metric_row) : string := seasonality (stored (loaded m)).
Definition net_revenue_of (m : metric_row) : Q := net_revenue (loaded m).
Definition units_sold_of (m : metric_row) : Q := inject_Z (units_sold (stored (loaded m))).
Definition turnover_of (m : metric_row) : Q := turnover_ratio (loaded m).
Definition margin_of (m : metric_row) : Q := profit_margin (loaded m).

(** ** [seasonal_analysis]: the table [seasonal_metrics] *)

Record seasonal_row : Type := {
  sm_inventory_days : Q;
  sm_turnover_ratio : Q;
  sm_profit_margin : Q;
  sm_net_revenue : Q;
  sm_units_sold : Q;
  sm_overstock_units : Q
}.

Definition seasonal_metrics (df : list metric_row)
    : list (string * string * seasonal_row) :=
  agg (fun rows => {|
         sm_inventory_days := round3 (col_mean inventory_days rows);
         sm_turnover_ratio := round3 (col_mean turnover_of rows);
         sm_profit_margin := round3 (col_mean margin_of rows);
         sm_net_revenue := round3 (col_sum net_revenue_of rows);
         sm_units_sold := round3 (col_sum units_sold_of rows);
         sm_overstock_units := round3 (col_sum overstock_col rows) |})
      (groupby compare2 (fun m => (seasonality_of m, category_of m)) df).

(** ** [generate_executive_summary]: revenue per category *)

(** [df.groupby('category')['net_revenue'].sum()] *)
Definition category_revenue (df : list metric_row) : list (string * Q) :=
  groupby_sum String.compare category_of net_revenue_of df.

(** ** Extremum selection in [generate_strategic_recommendations] *)

(** The scan behind [idxmax] and [idxmin]: the running best label changes
    only when a later value is strictly better, so the first occurrence of
    the extreme value is the one returned. *)
Fixpoint arg_first {K : Type} (better : Q -> Q -> bool) (k : K) (v : Q)
    (l : list (K * Q)) : K :=
  match l with
  | [] => k
  | (k', v') :: l' =>
      if better v' v then arg_first better k' v' l' else arg_first better k v l'
  end.

(** [Series.idxmax()]; an empty series raises ValueError. *)
Definition idxmax {K : Type} (s : list (K * Q)) : result K :=
  match s with
  | [] => Raise ValueError
  | (k, v) :: l => Ok (arg_first (fun new cur => Qlt_bool cur new) k v l)
  end.

(** [Series.idxmin()] *)
Definition idxmin {K : Type} (s : list (K * Q)) : result K :=
  match s with
  | [] => Raise ValueError
  | (k, v) :: l => Ok (arg_first (fun new cur => Qlt_bool new cur) k v l)
  end.

Definition by_value {K : Type} (a b : K * Q) : bool :=
  Qle_bool (snd a) (snd b).

(** [Series.sort_values(ascending=False)]: pandas reverses the values, sorts
    them ascending and reverses the outcome.  The default sort of pandas
    promises no order among equal values; here they keep the order they had
    in the series, which is what this construction gives with a stable
    sort. *)
Definition sort_values_desc {K : Type} (s : list (K * Q)) : list (K * Q) :=
  rev (stable_sort by_value (rev s)).

(** [s.index[0]] and [s.index[-1]]; an empty index raises IndexError. *)
Definition index_first {K : Type} (s : list (K * Q)) : result K :=
  match s with
  | [] => Raise IndexError
  | (k, _) :: _ => Ok k
  end.

Definition index_last {K : Type} (s : list (K * Q)) : result K :=
  index_first (rev s).

Record region_row : Type := {
  rp_inventory_days : Q;
  rp_turnover_ratio : Q;
  rp_net_revenue : Q;
  rp_efficiency_score : Q
}.

(** [df.groupby('region').agg({...}).round(3)] *)
Definition regional_performance (df : list metric_row)
    : list (string * region_row) :=
  agg (fun rows => {|
         rp_inventory_days := round3 (col_mean inventory_days rows);
         rp_turnover_ratio := round3 (col_mean turnover_of rows);
         rp_net_revenue := round3 (col_sum net_revenue_of rows);
         rp_efficiency_score := round3 (col_mean efficiency_score rows) |})
      (groupby String.compare region_of df).

(** [regional_performance['efficiency_score']] *)
Definition regional_scores (df : list metric_row) : list (string * Q) :=
  map (fun g => (fst g, rp_efficiency_score (snd g))) (regional_performance df).

(** [df.groupby('seasonality')['efficiency_score'].mean()], before sorting *)
Definition seasonal_scores (df : list metric_row) : list (string * Q) :=
  agg (col_mean efficiency_score) (groupby String.compare seasonality_of df).

(** [seasonal_perf] *)
Definition seasonal_perf (df : list metric_row) : list (string * Q) :=
  sort_values_desc (seasonal_scores df).

Record extremes : Type := {
  best_region : string;
  worst_region : string;
  best_season : string;
  worst_season : string
}.

(** The four groups [generate_strategic_recommendations] singles out. *)
Definition select_extremes (df : list metric_row) : result extremes :=
  br <- idxmax (regional_scores df) ;;
  wr <- idxmin (regional_scores df) ;;
  bs <- index_first (seasonal_perf df) ;;
  ws <- index_last (seasonal_perf df) ;;
  Ok {| best_region := br; worst_region := wr;
        best_season := bs; worst_season := ws |}.

(** [generate_strategic_recommendations], as far as its best and worst
    groups go. *)
Definition generate_strategic_recommendations
    (self_df : option (list metric_row)) : result (option extremes) :=
  with_frame self_df select_extremes.

(** Positions of a label in a table of scores: [placed before after s k]
    holds when [k] labels a row of [s] with some score [v], every earlier
    score [a] satisfies [before a v] and every later one [after a v]. *)
Definition placed {K : Type} (before after : Q -> Q -> Prop)
    (s : list (K * Q)) (k : K) : Prop :=
  exists v l1 l2, s = l1 ++ (k, v) :: l2
    /\ Forall (fun p => before (snd p) v) l1
    /\ Forall (fun p => after (snd p) v) l2.

(** The first row with the greatest score. *)
Definition first_max {K : Type} : list (K * Q) -> K -> Prop :=
  placed (fun a v => a < v) (fun a v => a <= v).

(** The first row with the least score. *)
Definition first_min {K : Type} : list (K * Q) -> K -> Prop :=
  placed (fun a v => v < a) (fun a v => v <= a).

(** The last row with the least score. *)
Definition last_min {K : Type} : list (K * Q) -> K -> Prop :=
  placed (fun a v => v <= a) (fun a v => v < a).

(** A row with the greatest score, and one with the least, wherever they
    stand among the rows of equal score. *)
Definition has_max {K : Type} (s : list (K * Q)) (k : K) : Prop :=
  exists v, In (k, v) s /\ Forall (fun p => snd p <= v) s.

Definition has_min {K : Type} (s : list (K * Q)) (k : K) : Prop :=
  exists v, In (k, v) s /\ Forall (fun p => v <= snd p) s.

(** Two rows of equal sales figures in different regions and seasons. *)
Definition tie_frame : list metric_row :=
  analysis_frame
    [ {| date := "2022-01-01"; store_id := "S001"; product_id := "P0001";
         category := "Toys"; region := "East";
         inventory_level := 100; units_sold := 10; units_ordered := 0;
         demand_forecast := 0; price := 50; discount := 0;
         weather_condition := "Sunny"; holiday_promotion := 0;
         competitor_pricing := 50; seasonality := "Autumn" |};
      {| date := "2022-01-02"; store_id := "S002"; product_id := "P0001";
         category := "Toys"; region := "West";
         inventory_level := 100; units_sold := 10; units_ordered := 0;
         demand_forecast := 0; price := 50; discount := 0;
         weather_condition := "Sunny"; holiday_promotion := 0;
         competitor_pricing := 50; seasonality := "Winter" |} ].

(** ** Significance tests of [correlation_analysis] *)

(** A cell of a numeric column by name, for the six columns the tests read;
    [None] is NaN.  (The columns of a [metric_row] hold numbers, so that in
    this model only a name outside the six gives NaN; [test_relationship]
    itself takes any cells, with or without NaN.) *)
Definition cell (name : string) (m : metric_row) : option Q :=
  if String.eqb name "inventory_days" then Some (inventory_days m)
  else if String.eqb name "profit_margin" then Some (margin_of m)
  else if String.eqb name "turnover_ratio" then Some (turnover_of m)
  else if String.eqb name "net_revenue" then Some (net_revenue_of m)
  else if String.eqb name "inventory_level"
       then Some (inject_Z (inventory_level (stored (loaded m))))
  else if String.eqb name "efficiency_score" then Some (efficiency_score m)
  else None.

(** [df[[var1, var2]]] *)
Definition select2 (var1 var2 : string) (df : list metric_row)
    : list (option Q * option Q) :=
  map (fun m => (cell var1 m, cell var2 m)) df.

(** [dropna()]: keeps the rows without a NaN. *)
Fixpoint dropna (rows : list (option Q * option Q)) : list (Q * Q) :=
  match rows with
  | [] => []
  | (Some x, Some y) :: rows' => (x, y) :: dropna rows'
  | _ :: rows' => dropna rows'
  end.

Definition relationships_to_test : list (string * string) :=
  [("inventory_days", "profit_margin");
   ("turnover_ratio", "net_revenue");
   ("inventory_level", "efficiency_score")]%string.

Record test_report : Type := {
  var1 : string;
  var2 : string;
  correlation : Q;
  p_value : Q;
  significance : string
}.

Section SignificanceTests.
(** [scipy.stats.pearsonr]: the coefficient and the two-sided p-value. *)
Variable pearsonr : list Q -> list Q -> Q * Q.

(** One turn of the loop: what it prints for a pair of columns. *)
Definition test_relationship (v1 v2 : string)
    (cells : list (option Q * option Q)) : list test_report :=
  let clean_data := dropna cells in
  if (10 <? List.length clean_data)%nat then
    let (c, p) := pearsonr (map fst clean_data) (map snd clean_data) in
    [ {| var1 := v1; var2 := v2; correlation := c; p_value := p;
         significance := if Qlt_bool p (5 # 100) then "Significant"
                         else "Not Significant" |} ]
  else [].

Definition significance_tests (df : list metric_row) : list test_report :=
  flat_map (fun vs => test_relationship (fst vs) (snd vs)
                        (select2 (fst vs) (snd vs) df))
           relationships_to_test.

(** [correlation_analysis], as far as its significance tests go. *)
Definition correlation_analysis (self_df : option (list metric_row))
    : result (option (list test_report)) :=
  with_frame self_df (fun df => Ok (significance_tests df)).

(** The pair [(v1, v2)] has a line in the printed results. *)
Definition reported (v1 v2 : string) (out : list test_report) : Prop :=
  exists t, In t out /\ var1 t = v1 /\ var2 t = v2.
End SignificanceTests.

(** ** The printed tables of [identify_problem_areas] *)

(** [round(2)], as [round3]. *)
Definition round2 (x : Q) : Q := inject_Z (rint (x * 100)) / 100.

(** [DataFrame.sort_values(column, ascending=False)], with the same
    treatment of equal values as [sort_values_desc]. *)
Definition sort_rows_desc {A : Type} (score : A -> Q) (rows : list A) : list A :=
  rev (stable_sort (fun a b => Qle_bool (score a) (score b)) (rev rows)).

(** A row of [category_analysis], after the renaming of its columns. *)
Record category_row : Type := {
  Count : nat;
  Avg_Inventory_Days : Q;
  Total_Revenue : Q;
  Total_Overstock : Q
}.

(** The table printed under "SLOW-MOVING ITEMS BY CATEGORY"; nothing is
    printed ([None]) when the segment has no row. *)
Definition category_analysis (slow_moving : list metric_row)
    : option (list (string * category_row)) :=
  match slow_moving with
  | [] => None
  | _ =>
      Some (sort_rows_desc
              (fun g => inject_Z (Z.of_nat (Count (snd g))))
              (agg (fun rows => {|
                      Count := List.length rows;
                      Avg_Inventory_Days := round2 (col_mean inventory_days rows);
                      Total_Revenue := round2 (col_sum net_revenue_of rows);
                      Total_Overstock := round2 (col_sum overstock_col rows) |})
                   (groupby String.compare category_of slow_moving)))
  end.

(** ** [generate_executive_summary] *)

(** [Series.mean()]: NaN on an empty column. *)
Definition mean_opt (col : list Q) : option Q :=
  match col with
  | [] => None
  | _ => Some (Qsum col / inject_Z (Z.of_nat (List.length col)))
  end.

(** What the summary prints. *)
Record executive_summary : Type := {
  total_revenue : Q;
  total_units : Q;
  avg_margin : option Q;
  total_overstock_value : Q;
  top_categories : list (string * Q);
  high_efficiency : nat;
  low_efficiency : nat;
  high_efficiency_share : Q;
  low_efficiency_share : Q;
  potential_savings : Q;
  roi : option Q
}.

(** The outcome of a computation that divides Python numbers. *)
Inductive division_result (A : Type) : Type :=
| Computed (a : A)
| ZeroDivisionError.

Arguments Computed {A} a.
Arguments ZeroDivisionError {A}.

(** [len(df[df['efficiency_score'] > df['efficiency_score'].quantile(0.8)])] *)
Definition count_high_efficiency (df : list metric_row) : nat :=
  List.length (filter (fun m => gt_threshold (efficiency_score m)
                                  (quantile (8 # 10) (map efficiency_score df))) df).

(** [len(df[df['efficiency_score'] < df['efficiency_score'].quantile(0.2)])] *)
Definition count_low_efficiency (df : list metric_row) : nat :=
  List.length (filter (fun m => lt_threshold (efficiency_score m)
                                  (quantile (2 # 10) (map efficiency_score df))) df).

(** [count / len(self.df) * 100] on Python integers: a division by the
    length 0 raises ZeroDivisionError. *)
Definition share_of (count total : nat) : division_result Q :=
  match total with
  | O => ZeroDivisionError
  | _ => Computed (inject_Z (Z.of_nat count) / inject_Z (Z.of_nat total) * 100)
  end.

(** [x / y * 100] on numpy floats: a division by 0.0 raises nothing and
    gives inf or NaN, shown here as [None]. *)
Definition float_ratio_percent (x y : Q) : option Q :=
  if Qeq_bool y 0 then None else Some (x / y * 100).

(** The body of [generate_executive_summary]: the figures it prints, in the
    order it computes them. *)
Definition executive_summary_of (df : list metric_row)
    : division_result executive_summary :=
  let total_revenue := Qsum (map net_revenue_of df) in
  let total_units := Qsum (map units_sold_of df) in
  let avg_margin := mean_opt (map margin_of df) in
  let total_overstock_value :=
    Qsum (map (fun m => overstock_col m * price (stored (loaded m))) df) in
  let top_categories := firstn 3 (sort_values_desc (category_revenue df)) in
  let high_efficiency := count_high_efficiency df in
  let low_efficiency := count_low_efficiency df in
  match share_of high_efficiency (List.length df),
        share_of low_efficiency (List.length df) with
  | Computed hs, Computed ls =>
      let potential_savings := total_overstock_value * (3 # 10) in
      Computed {|
        total_revenue := total_revenue;
        total_units := total_units;
        avg_margin := avg_margin;
        total_overstock_value := total_overstock_value;
        top_categories := top_categories;
        high_efficiency := high_efficiency;
        low_efficiency := low_efficiency;
        high_efficiency_share := hs;
        low_efficiency_share := ls;
        potential_savings := potential_savings;
        roi := float_ratio_percent potential_savings total_revenue |}
  | _, _ => ZeroDivisionError
  end.

Definition generate_executive_summary (self_df : option (list metric_row))
    : division_result (option executive_summary) :=
  match self_df with
  | None => Computed None
  | Some df =>
      match executive_summary_of df with
      | Computed s => Computed (Some s)
      | ZeroDivisionError => ZeroDivisionError
      end
  end.

(** ** The category loop of [generate_strategic_recommendations] *)

(** A row of [category_performance]. *)
Record category_perf : Type := {
  cp_inventory_days : Q;
  cp_turnover_ratio : Q;
  cp_profit_margin : Q;
  cp_net_revenue : Q;
  cp_overstock_units : Q
}.

(** [df.groupby('category').agg({...}).round(3)] *)
Definition category_performance (df : list metric_row)
    : list (string * category_perf) :=
  agg (fun rows => {|
         cp_inventory_days := round3 (col_mean inventory_days rows);
         cp_turnover_ratio := round3 (col_mean turnover_of rows);
         cp_profit_margin := round3 (col_mean margin_of rows);
         cp_net_revenue := round3 (col_sum net_revenue_of rows);
         cp_overstock_units := round3 (col_sum overstock_col rows) |})
      (groupby String.compare category_of df).

(** [avg * factor], NaN when the average is NaN. *)
Definition scaled (avg : option Q) (factor : Q) : option Q :=
  match avg with
  | Some a => Some (a * factor)
  | None => None
  end.

(** The four tests the loop makes for a category. *)
Record category_flags : Type := {
  high_inventory_risk : bool;
  low_turnover : bool;
  overstock_alert : bool;
  excellent_performance : bool
}.

Definition flags_of (df : list metric_row) (cat_data : category_perf)
    : category_flags :=
  let avg_inventory_days := mean_opt (map inventory_days df) in
  let avg_turnover := mean_opt (map turnover_of df) in
  {| high_inventory_risk :=
       gt_threshold (cp_inventory_days cat_data) (scaled avg_inventory_days (12 # 10));
     low_turnover :=
       lt_threshold (cp_turnover_ratio cat_data) (scaled avg_turnover (8 # 10));
     overstock_alert :=
       gt_threshold (cp_overstock_units cat_data)
                    (quantile (7 # 10) (map overstock_col df));
     excellent_performance :=
       lt_threshold (cp_inventory_days cat_data) (scaled avg_inventory_days (9 # 10))
       && gt_threshold (cp_turnover_ratio cat_data) (scaled avg_turnover (11 # 10)) |}.

(** An entry of [recommendations]: the category and the figure its text
    quotes. *)
Inductive recommendation : Type :=
| ReduceInventory (category : string) (days : Q)
| ImproveTurnover (category : string) (ratio : Q)
| AddressOverstock (category : string) (units : Q).

Definition recommended_category (r : recommendation) : string :=
  match r with
  | ReduceInventory c _ => c
  | ImproveTurnover c _ => c
  | AddressOverstock c _ => c
  end.

(** What one turn of the loop appends. *)
Definition recommendations_for (df : list metric_row)
    (g : string * category_perf) : list recommendation :=
  let flags := flags_of df (snd g) in
  (if high_inventory_risk flags
   then [ReduceInventory (fst g) (cp_inventory_days (snd g))] else [])
  ++ (if low_turnover flags
      then [ImproveTurnover (fst g) (cp_turnover_ratio (snd g))] else [])
  ++ (if overstock_alert flags
      then [AddressOverstock (fst g) (cp_overstock_units (snd g))] else []).

(** The list [generate_strategic_recommendations] returns, once the regions
    and the seasons are selected; writing the report file is left out. *)
Definition strategic_recommendations (df : list metric_row)
    : result (list recommendation) :=
  let recommendations := flat_map (recommendations_for df) (category_performance df) in
  _ <- select_extremes df ;;
  Ok recommendations.

(** ** [_interpret_correlation] *)

Inductive strength : Type :=
| Strong
| Moderate
| Weak
| VeryWeak.

Definition strength_name (s : strength) : string :=
  match s with
  | Strong => "Strong"
  | Moderate => "Moderate"
  | Weak => "Weak"
  | VeryWeak => "Very Weak"
  end.

(** [x >= t] for a value that may be NaN. *)
Definition ge_value (x : option Q) (t : Q) : bool :=
  match x with
  | Some x => Qle_bool t x
  | None => false
  end.

Definition interpret_correlation (correlation : option Q) : strength :=
  let abs_corr := option_map Qabs correlation in
  if ge_value abs_corr (7 # 10) then Strong
  else if ge_value abs_corr (3 # 10) then Moderate
  else if ge_value abs_corr (1 # 10) then Weak
  else VeryWeak.

(** The order of the labels, from the weakest up. *)
Definition strength_rank (s : strength) : nat :=
  match s with
  | VeryWeak => 0
  | Weak => 1
  | Moderate => 2
  | Strong => 3
  end.

(** ** [RetailDataProcessor.load_and_process_csv]: column names *)

Fixpoint map_chars (f : ascii -> ascii) (s : string) : string :=
  match s with
  | EmptyString => EmptyString
  | String c s' => String (f c) (map_chars f s')
  end.

(** [str.replace(old, new)] for one-character strings. *)
Definition replace_char (old new : ascii) (s : string) : string :=
  map_chars (fun c => if Ascii.eqb c old then new else c) s.

Definition is_upper (c : ascii) : bool :=
  (65 <=? nat_of_ascii c)%nat && (nat_of_ascii c <=? 90)%nat.

(** [str.lower()] on a string of ASCII characters: the letters A to Z move
    to a to z.  (On other characters Python follows Unicode; the properties
    below are stated for ASCII names.) *)
Definition lower_char (c : ascii) : ascii :=
  if is_upper c then ascii_of_nat (nat_of_ascii c + 32) else c.

Definition lower (s : string) : string := map_chars lower_char s.

(** [col.replace(' ', '_').replace('/', '_').lower()] *)
Definition clean_column_name (col : string) : string :=
  lower (replace_char "/" "_" (replace_char " " "_" col)).

Fixpoint all_chars (p : ascii -> bool) (s : string) : bool :=
  match s with
  | EmptyString => true
  | String c s' => p c && all_chars p s'
  end.

Definition ascii_only (s : string) : bool :=
  all_chars (fun c => (nat_of_ascii c <? 128)%nat) s.

(** No space, no slash, no capital letter. *)
Definition clean_char (c : ascii) : bool :=
  negb (Ascii.eqb c " ") && negb (Ascii.eqb c "/") && negb (is_upper c).

(** What [clean_column_name] does to one character. *)
Definition clean_one (c : ascii) : ascii :=
  lower_char (let c' := if Ascii.eqb c " " then "_"%char else c in
              if Ascii.eqb c' "/" then "_"%char else c').

(** The columns [insert_data_batch] reads from a row. *)
Definition insert_columns : list string :=
  ["date"; "store_id"; "product_id"; "category"; "region"; "inventory_level";
   "units_sold"; "units_ordered"; "demand_forecast"; "price"; "discount";
   "weather_condition"; "holiday_promotion"; "competitor_pricing";
   "seasonality"]%string.

(** ** [RetailDataProcessor.insert_data_batch] *)

(** [range(0, total, step)]: ValueError for a step of 0, nothing for a
    negative step, else the multiples of the step below [total]. *)
Definition range_from_0 (total : nat) (step : Z) : result (list nat) :=
  if (step =? 0)%Z then Raise ValueError
  else if (step <? 0)%Z then Ok []
  else let st := Z.to_nat step in
       Ok (map (fun i => i * st)%nat (seq 0 ((total + st - 1) / st))).

(** [df.iloc[start_idx:end_idx]] *)
Definition iloc {T : Type} (df : list T) (start_idx end_idx : nat) : list T :=
  firstn (end_idx - start_idx) (skipn start_idx df).

(** The batches the loop walks through. *)
Definition batches_of {T : Type} (df : list T) (batch_size : Z)
    : result (list (list T)) :=
  starts <- range_from_0 (List.length df) batch_size ;;
  Ok (map (fun start_idx =>
             iloc df start_idx
                  (Nat.min (start_idx + Z.to_nat batch_size) (List.length df)))
          starts).

Section InsertBatches.
Context {T U : Type}.
(** The tuple built from a row. *)
Variable prepare : T -> U.
(** The database: [fails i] tells whether [executemany] raises an [Error]
    on the batch number [i], counted from 0. *)
Variable fails : nat -> bool.

(** The batches in turn, over the committed rows of the table: a batch is
    inserted and committed, or its failure ends the loop with the rollback
    of that batch and the answer [False]. *)
Fixpoint run_batches (i : nat) (batches : list (list T)) (table : list U)
    : bool * list U :=
  match batches with
  | [] => (true, table)
  | batch :: rest =>
      if fails i then (false, table)
      else run_batches (S i) rest (table ++ map prepare batch)
  end.

Definition insert_data_batch (df : list T) (batch_size : Z) (table : list U)
    : result (bool * list U) :=
  batches <- batches_of df batch_size ;;
  Ok (run_batches 0 batches table).
End InsertBatches.

(** ** The view [profit_by_category] *)

Record profit_by_category_row : Type := {
  pbc_total_transactions : nat;
  pbc_total_units_sold : Z;
  pbc_total_revenue : Q;
  pbc_total_discount_amount : Q;
  pbc_net_revenue : Q;
  pbc_avg_price : Q;
  pbc_avg_discount_percent : Q;
  pbc_profit_margin_percent : option Q
}.

(** SQL's [x / y * 100]: NULL when the divisor is 0. *)
Definition sql_ratio_percent (x y : Q) : option Q :=
  if Qeq_bool y 0 then None else Some (x / y * 100).

Definition sale_gross (r : retail_inventory) : Q :=
  inject_Z (units_sold r) * price r.

Definition sale_discount (r : retail_inventory) : Q :=
  inject_Z (units_sold r) * price r * inject_Z (discount r) / 100.

Definition sale_net (r : retail_inventory) : Q :=
  inject_Z (units_sold r) * price r * discount_factor r.

Definition profit_by_category_of (rows : list retail_inventory)
    : profit_by_category_row := {|
  pbc_total_transactions := List.length rows;
  pbc_total_units_sold := fold_right Z.add 0%Z (map units_sold rows);
  pbc_total_revenue := col_sum sale_gross rows;
  pbc_total_discount_amount := col_sum sale_discount rows;
  pbc_net_revenue := col_sum sale_net rows;
  pbc_avg_price := col_mean price rows;
  pbc_avg_discount_percent := col_mean (fun r => inject_Z (discount r)) rows;
  pbc_profit_margin_percent :=
    sql_ratio_percent (col_sum sale_net rows) (col_sum sale_gross rows)
|}.

(** [SELECT ... FROM retail_inventory WHERE units_sold > 0
     GROUP BY category ORDER BY net_revenue DESC] *)
Definition profit_by_category (db : list retail_inventory)
    : list (string * profit_by_category_row) :=
  sort_rows_desc (fun g => pbc_net_revenue (snd g))
    (agg profit_by_category_of
         (groupby String.compare category
                  (filter (fun r => (0 <? units_sold r)%Z) db))).

(** ** Fixtures *)

Definition stock_row (cat reg season : string) (level sold : Z) (p : Q)
    (disc : Z) : retail_inventory := {|
  date := "2022-01-01"; store_id := "S001"; product_id := "P0001";
  category := cat; region := reg;
  inventory_level := level; units_sold := sold; units_ordered := 0;
  demand_forecast := 0; price := p; discount := disc;
  weather_condition := "Sunny"; holiday_promotion := 0;
  competitor_pricing := p; seasonality := season
|}.

(** A stand-in for [scipy.stats.pearsonr] and a frame of [n] equal rows, to
    exercise the sample-size guard. *)
Definition fixture_pearsonr (_ _ : list Q) : Q * Q := (0, 1).

Definition frame_of_size (n : nat) : list metric_row :=
  repeat (add_metrics (select_row (stock_row "Toys" "North" "Winter" 100 10 50 0))) n.

(** * Properties *)

(** ** Order and arithmetic lemmas *)

(** Turns a comparison of rationals built from integers into one on [Z]. *)
Ltac q2z :=
  unfold Qeq, Qlt, Qle, Qmult, Qplus, Qminus, Qopp, inject_Z in *;
  cbn [Qnum Qden] in *; lia.

Lemma Qlt_bool_iff (x y : Q) : Qlt_bool x y = true <-> x < y.
Proof.
  unfold Qlt_bool. rewrite negb_true_iff. split.
  - intros H. apply Qnot_le_lt. intros Hle.
    apply Qle_bool_iff in Hle. congruence.
  - intros H. destruct (Qle_bool y x) eqn:E; [|reflexivity].
    apply Qle_bool_iff in E. exfalso. apply (Qlt_not_le _ _ H E).
Qed.

Lemma Qlt_bool_false_iff (x y : Q) : Qlt_bool x y = false <-> y <= x.
Proof.
  unfold Qlt_bool. rewrite negb_false_iff. apply Qle_bool_iff.
Qed.

Lemma Qle_bool_false_iff (x y : Q) : Qle_bool x y = false <-> y < x.
Proof.
  rewrite <- Qlt_bool_iff. unfold Qlt_bool.
  destruct (Qle_bool x y); simpl; split; congruence.
Qed.

#[global] Instance Qlt_bool_comp : Proper (Qeq ==> Qeq ==> eq) Qlt_bool.
Proof.
  intros x x' Hx y y' Hy. unfold Qlt_bool. now rewrite Hx, Hy.
Qed.

(** ** MySQL's rounded division of two INT columns *)

Lemma Qfloor_lt_iff (y : Q) (k : Z) : (Qfloor y < k)%Z <-> y < inject_Z k.
Proof.
  split.
  - intros H. apply Qlt_le_trans with (inject_Z (Qfloor y + 1)).
    + apply Qlt_floor.
    + rewrite <- Zle_Qle. lia.
  - intros H. apply Z.nle_gt. intros Hk.
    apply (Qlt_not_le _ _ H). apply Qle_trans with (inject_Z (Qfloor y)).
    + now rewrite <- Zle_Qle.
    + apply Qfloor_le.
Qed.

(** [a / b * 10000] against a bound, with the divisor cleared. *)
Lemma scaled_quotient_lt (a b : Z) (c : Q) :
  (0 < b)%Z ->
  (inject_Z a / inject_Z b * 10000 < c
   <-> inject_Z (10000 * a) < c * inject_Z b).
Proof.
  intros Hb.
  assert (Hq : 0 < inject_Z b) by (rewrite <- (Zlt_Qlt 0); exact Hb).
  assert (E1 : c * inject_Z b * / inject_Z b == c) by (field; lra).
  assert (E2 : inject_Z 10000 * inject_Z a * / inject_Z b
               == inject_Z a / inject_Z b * 10000)
    by (change (inject_Z 10000) with 10000; field; lra).
  rewrite inject_Z_mult. split; intros H.
  - apply Qmult_lt_r with (z := / inject_Z b); [now apply Qinv_lt_0_compat|].
    now rewrite E1, E2.
  - apply Qmult_lt_r with (z := / inject_Z b) in H;
      [|now apply Qinv_lt_0_compat].
    now rewrite E1, E2 in H.
Qed.

Lemma scaled_quotient_nonneg (a b : Z) :
  (0 <= a)%Z -> (0 < b)%Z -> 0 <= inject_Z a / inject_Z b * 10000.
Proof.
  intros Ha Hb. apply Qnot_lt_le. intros H.
  apply scaled_quotient_lt in H; [|exact Hb].
  rewrite Qmult_0_l in H. rewrite <- (Zlt_Qlt _ 0) in H. lia.
Qed.

(** The rounded quotient of [a >= 0] by [b > 0] is [n] units of 0.0001, and
    [n < k] exactly when [a / b] lies below [k - 1/2] units. *)
Lemma sql_int_div_units (a b : Z) :
  (0 <= a)%Z -> (0 < b)%Z ->
  exists n : Z, sql_int_div a b = inject_Z n / 10000
    /\ forall k : Z, (n < k)%Z <-> (20000 * a < (2 * k - 1) * b)%Z.
Proof.
  intros Ha Hb. unfold sql_int_div, round_half_away.
  pose proof (scaled_quotient_nonneg a b Ha Hb) as Hx.
  apply Qle_bool_iff in Hx. rewrite Hx.
  eexists. split; [reflexivity|]. intros k.
  rewrite Qfloor_lt_iff.
  assert (E : forall x, x + (1 # 2) < inject_Z k <-> x < inject_Z k - (1 # 2))
    by (intros x; split; intros H; lra).
  rewrite E, (scaled_quotient_lt a b _ Hb).
  unfold Qlt, Qminus, Qplus, Qmult, Qopp, inject_Z. cbn [Qnum Qden]. lia.
Qed.

Lemma units_lt (n k : Z) : inject_Z n / 10000 < k # 10000 <-> (n < k)%Z.
Proof.
  unfold Qlt, Qdiv, Qmult, Qinv, inject_Z. cbn [Qnum Qden]. lia.
Qed.

Lemma units_le (n k : Z) : inject_Z n / 10000 <= k # 10000 <-> (n <= k)%Z.
Proof.
  unfold Qle, Qdiv, Qmult, Qinv, inject_Z. cbn [Qnum Qden]. lia.
Qed.

Lemma sql_int_div_lt (a b k : Z) :
  (0 <= a)%Z -> (0 < b)%Z ->
  (sql_int_div a b < k # 10000 <-> (20000 * a < (2 * k - 1) * b)%Z).
Proof.
  intros Ha Hb. destruct (sql_int_div_units a b Ha Hb) as (n & -> & Hn).
  now rewrite units_lt.
Qed.

Lemma sql_int_div_le (a b k : Z) :
  (0 <= a)%Z -> (0 < b)%Z ->
  (sql_int_div a b <= k # 10000 <-> (20000 * a < (2 * k + 1) * b)%Z).
Proof.
  intros Ha Hb. destruct (sql_int_div_units a b Ha Hb) as (n & -> & Hn).
  rewrite units_le. replace (2 * k + 1)%Z with (2 * (k + 1) - 1)%Z by lia.
  rewrite <- Hn. lia.
Qed.

(** A numerator that is not positive gives a quotient that is not positive. *)
Lemma sql_int_div_nonpos (a b : Z) :
  (a <= 0)%Z -> (0 < b)%Z -> sql_int_div a b <= 0.
Proof.
  intros Ha Hb. unfold sql_int_div, round_half_away.
  assert (Hq : 0 < inject_Z b) by (rewrite <- (Zlt_Qlt 0); exact Hb).
  set (x := inject_Z a / inject_Z b * 10000).
  assert (Hx : x <= 0).
  { assert (H : 0 <= inject_Z (- a) / inject_Z b * 10000)
      by (apply scaled_quotient_nonneg; lia).
    rewrite inject_Z_opp in H.
    setoid_replace (- inject_Z a / inject_Z b * 10000) with (- x) in H
      by (unfold x; field; lra).
    lra. }
  assert (Hn : forall n : Z, (n <= 0)%Z -> inject_Z n / 10000 <= 0).
  { intros n Hle. unfold Qle, Qdiv, Qmult, Qinv, inject_Z. cbn [Qnum Qden]. lia. }
  apply Hn. destruct (Qle_bool 0 x) eqn:E.
  - apply Qle_bool_iff in E.
    assert (H : (Qfloor (x + (1 # 2)) < 1)%Z)
      by (apply Qfloor_lt_iff; change (inject_Z 1) with 1; lra).
    lia.
  - assert (H : ~ (Qfloor (- x + (1 # 2)) < 0)%Z)
      by (rewrite Qfloor_lt_iff; change (inject_Z 0) with 0; lra).
    lia.
Qed.

Lemma round_half_away_near (x : Q) :
  Qabs (inject_Z (round_half_away x) - x) <= 1 # 2.
Proof.
  unfold round_half_away. apply Qabs_Qle_condition.
  destruct (Qle_bool 0 x).
  - pose proof (Qfloor_le (x + (1 # 2))) as H1.
    pose proof (Qlt_floor (x + (1 # 2))) as H2.
    rewrite inject_Z_plus in H2. change (inject_Z 1) with 1 in H2.
    split; lra.
  - pose proof (Qfloor_le (- x + (1 # 2))) as H1.
    pose proof (Qlt_floor (- x + (1 # 2))) as H2.
    rewrite inject_Z_plus in H2. change (inject_Z 1) with 1 in H2.
    rewrite inject_Z_opp. split; lra.
Qed.

(** The rounded quotient is the exact one to within half a unit of 0.0001. *)
Lemma sql_int_div_near (a b : Z) :
  (0 < b)%Z ->
  Qabs (sql_int_div a b - inject_Z a / inject_Z b) <= 1 # 20000.
Proof.
  intros Hb. unfold sql_int_div.
  pose proof (round_half_away_near (inject_Z a / inject_Z b * 10000)) as H.
  apply Qabs_Qle_condition in H. apply Qabs_Qle_condition.
  set (n := inject_Z (round_half_away (inject_Z a / inject_Z b * 10000))) in *.
  set (q := inject_Z a / inject_Z b) in *.
  destruct H as [H1 H2]. clearbody n q.
  unfold Qdiv. change (/ 10000) with (1 # 10000).
  split; lra.
Qed.

Lemma sql_int_div_nonneg (a b : Z) :
  (0 <= a)%Z -> (0 < b)%Z -> 0 <= sql_int_div a b.
Proof.
  intros Ha Hb. apply Qnot_lt_le. intros Hneg.
  assert (H : sql_int_div a b < 0 # 10000)
    by (apply Qlt_le_trans with 0; [exact Hneg | discriminate]).
  apply (sql_int_div_lt _ _ 0 Ha Hb) in H. lia.
Qed.

Lemma sql_int_div_le_1 (a b : Z) :
  (0 <= a <= b)%Z -> (0 < b)%Z -> sql_int_div a b <= 1.
Proof.
  intros [Ha Hab] Hb. apply Qle_trans with (10000 # 10000); [|discriminate].
  apply (sql_int_div_le _ _ 10000 Ha Hb). lia.
Qed.

(** The denominator [units_sold + 0.1] is positive for sales that are not
    negative. *)
Lemma sold_guard_pos (sold : Z) : (0 <= sold)%Z -> 0 < inject_Z sold + (1 # 10).
Proof.
  intros H. q2z.
Qed.

Lemma days_on_hand_times_guard (level sold : Z) :
  (0 <= sold)%Z ->
  days_on_hand level sold * (inject_Z sold + (1 # 10)) == 30 * inject_Z level.
Proof.
  intros H. pose proof (sold_guard_pos sold H) as Hd.
  unfold days_on_hand. field. intros E. rewrite E in Hd.
  apply (Qlt_irrefl 0 Hd).
Qed.

(** Comparing the days on hand with a constant, without the division. *)
Lemma days_on_hand_gt (level sold : Z) (c : Q) :
  (0 <= sold)%Z ->
  (c < days_on_hand level sold
   <-> c * (inject_Z sold + (1 # 10)) < 30 * inject_Z level).
Proof.
  intros H. pose proof (sold_guard_pos sold H) as Hd.
  rewrite <- (days_on_hand_times_guard level sold H).
  symmetry. apply Qmult_lt_r. exact Hd.
Qed.

Lemma in_load_data (db : list retail_inventory) (r : loaded_row) :
  In r (load_data db) ->
  exists s, r = select_row s /\ In s db
            /\ (0 < inventory_level s)%Z /\ 0 < price s.
Proof.
  unfold load_data. intros H. apply in_map_iff in H.
  destruct H as [s [Hs Hin]]. apply filter_In in Hin.
  destruct Hin as [Hin Hw]. unfold where_clause in Hw.
  apply andb_true_iff in Hw. destruct Hw as [Hl Hp].
  exists s. repeat split; auto.
  - now apply Z.ltb_lt.
  - now apply Qlt_bool_iff.
Qed.

Lemma in_analysis_frame (db : list retail_inventory) (m : metric_row) :
  In m (analysis_frame db) ->
  exists s, m = add_metrics (select_row s) /\ In s db
            /\ (0 < inventory_level s)%Z /\ 0 < price s.
Proof.
  unfold analysis_frame, calculate_inventory_metrics. intros H.
  apply in_map_iff in H. destruct H as [r [Hr Hin]].
  apply in_load_data in Hin. destruct Hin as [s [-> Hs]].
  exists s. split; [now symmetry | exact Hs].
Qed.

(** ** Two worked rows *)

(** Stock 100, 10 sold at 50 without discount: revenue 500, turnover 0.1,
    margin 1, 100/10.1*30 days on hand, Dead Stock. *)
Example worked_row_sold_10 :
  let m := add_metrics (select_row (stock_row "Toys" "North" "Winter" 100 10 50 0)) in
  gross_revenue (loaded m) == 500 /\ net_revenue (loaded m) == 500
  /\ turnover_ratio (loaded m) == 1 # 10 /\ profit_margin (loaded m) == 1
  /\ inventory_days m == 30000 # 101 /\ efficiency_score m == 10
  /\ inventory_category m = Some DeadStock.
Proof.
  repeat split.
Qed.

(** Stock 20 and nothing sold: turnover 0, margin 0, 6000 days on hand,
    Dead Stock, and a member of both the dead-stock and the slow-moving
    segment. *)
Example worked_row_sold_0 :
  let m := add_metrics (select_row (stock_row "Toys" "North" "Winter" 20 0 10 0)) in
  turnover_ratio (loaded m) == 0 /\ profit_margin (loaded m) == 0
  /\ inventory_days m == 6000
  /\ inventory_category m = Some DeadStock
  /\ is_dead_stock m = true /\ is_slow_moving m = true.
Proof.
  repeat split.
Qed.

(** 1/7 is 0.1429, 2/3 is 0.6667, 1/20000 goes up to 0.0001, and
    29996/100000 is 0.3000. *)
Example sql_int_div_values :
  sql_int_div 1 7 == 1429 # 10000 /\ sql_int_div 2 3 == 6667 # 10000
  /\ sql_int_div 1 20000 == 1 # 10000
  /\ sql_int_div 29996 100000 == 3 # 10.
Proof.
  repeat split.
Qed.

(** ** Inventory categories (C1) *)

(** The bins of [categorize], read off its edges. *)
Lemma categorize_bins (days : Q) :
  (days <= 0 -> categorize days = None)
  /\ (0 < days /\ days <= 15 -> categorize days = Some FastMoving)
  /\ (15 < days /\ days <= 30 -> categorize days = Some Normal)
  /\ (30 < days /\ days <= 60 -> categorize days = Some SlowMoving)
  /\ (60 < days -> categorize days = Some DeadStock).
Proof.
  unfold categorize, pd_cut, cut, above, upto.
  destruct (Qlt_bool 0 days) eqn:E0;
    [apply Qlt_bool_iff in E0 | apply Qlt_bool_false_iff in E0];
  (destruct (Qle_bool days 15) eqn:E15;
    [apply Qle_bool_iff in E15 | apply Qle_bool_false_iff in E15]);
  (destruct (Qlt_bool 15 days) eqn:F15;
    [apply Qlt_bool_iff in F15 | apply Qlt_bool_false_iff in F15]);
  (destruct (Qle_bool days 30) eqn:E30;
    [apply Qle_bool_iff in E30 | apply Qle_bool_false_iff in E30]);
  (destruct (Qlt_bool 30 days) eqn:F30;
    [apply Qlt_bool_iff in F30 | apply Qlt_bool_false_iff in F30]);
  (destruct (Qle_bool days 60) eqn:E60;
    [apply Qle_bool_iff in E60 | apply Qle_bool_false_iff in E60]);
  (destruct (Qlt_bool 60 days) eqn:F60;
    [apply Qlt_bool_iff in F60 | apply Qlt_bool_false_iff in F60]);
  simpl; repeat split; intros; try reflexivity; exfalso; lra.
Qed.

(** At an edge itself [pd.cut] is right-closed: the edge belongs to the
    lower bin, where the thresholds of the specification put it in the
    upper one. *)
Example categorize_at_edges :
  categorize 15 = Some FastMoving /\ spec_inventory_category 15 = Some Normal
  /\ categorize 30 = Some Normal /\ spec_inventory_category 30 = Some SlowMoving
  /\ categorize 60 = Some SlowMoving
  /\ spec_inventory_category 60 = Some DeadStock.
Proof.
  repeat split.
Qed.






(** With integer stock and sales the days on hand never fall on a bin edge. *)
Lemma days_on_hand_off_edges (level sold : Z) :
  (0 <= sold)%Z ->
  ~ days_on_hand level sold == 15
  /\ ~ days_on_hand level sold == 30
  /\ ~ days_on_hand level sold == 60.
Proof.
  intros H. pose proof (days_on_hand_times_guard level sold H) as E.
  repeat split; intros E'; rewrite E' in E; q2z.
Qed.

(** ** Profit margin (C3) *)

(** C3: on a loaded row with sales, the profit margin is
    [1 - discount/100], whatever the price and the number of units; with no
    sales it is 0. *)
Theorem profit_margin_discount_only (db : list retail_inventory) (r : loaded_row) :
  In r (load_data db) ->
  ((0 < units_sold (stored r))%Z ->
     profit_margin r == 1 - inject_Z (discount (stored r)) / 100)
  /\ (units_sold (stored r) = 0%Z -> profit_margin r == 0).
Proof.
  intros H. apply in_load_data in H. destruct H as [s [-> [_ [_ Hp]]]].
  simpl. unfold sql_profit_margin, discount_factor. split.
  - intros Hu. assert (Hq : 0 < inject_Z (units_sold s)) by q2z.
    apply Z.ltb_lt in Hu. rewrite Hu. field. split; intros E.
    + rewrite E in Hp. apply (Qlt_irrefl 0 Hp).
    + rewrite E in Hq. apply (Qlt_irrefl 0 Hq).
  - intros ->. reflexivity.
Qed.

Lemma profit_margin_discount_only_witness :
  profit_margin (select_row (stock_row "Toys" "North" "Winter" 100 10 50 20))
  == 1 - inject_Z 20 / 100.
Proof.
  apply (proj1 (profit_margin_discount_only
                  [stock_row "Toys" "North" "Winter" 100 10 50 20] _
                  (or_introl eq_refl))).
  reflexivity.
Defined.

(** ** Days on hand (C7, C10) *)

(** C7: for a fixed positive inventory level, more units sold mean strictly
    fewer days on hand. *)
Theorem days_on_hand_decreasing (level a b : Z) :
  (0 < level)%Z -> (0 <= a)%Z -> (a < b)%Z ->
  days_on_hand level b < days_on_hand level a.
Proof.
  intros Hl Ha Hab.
  assert (Hb : (0 <= b)%Z) by lia.
  pose proof (sold_guard_pos a Ha) as Hda.
  pose proof (sold_guard_pos b Hb) as Hdb.
  apply (days_on_hand_gt level a _ Ha).
  apply (Qmult_lt_r _ _ _ Hdb).
  setoid_replace (days_on_hand level b * (inject_Z a + (1 # 10))
                  * (inject_Z b + (1 # 10)))
    with (days_on_hand level b * (inject_Z b + (1 # 10))
          * (inject_Z a + (1 # 10))) by ring.
  rewrite (days_on_hand_times_guard level b Hb).
  apply Qmult_lt_l; q2z.
Qed.

Lemma days_on_hand_decreasing_witness :
  days_on_hand 100 10 < days_on_hand 100 0.
Proof.
  apply (days_on_hand_decreasing 100 0 10); lia.
Defined.

(** C10, as the specification words it, fails on a row with negative sales:
    the query filters on [inventory_level] and [price] only, so it delivers
    the row, whose days on hand are negative and which gets no category. *)
Lemma negative_sales_row_uncategorized :
  let s := stock_row "Toys" "North" "Winter" 10 (-1) 5 0 in
  let m := add_metrics (select_row s) in
  where_clause s = true /\ analysis_frame [s] = [m]
  /\ inventory_days m < 0 /\ inventory_category m = None.
Proof.
  repeat split.
Qed.

(** C10 (amended): a row delivered by the analysis query with sales that are
    not negative has strictly positive days on hand and gets a category. *)
Theorem analysis_rows_categorized (db : list retail_inventory) (m : metric_row) :
  In m (analysis_frame db) ->
  (0 <= units_sold (stored (loaded m)))%Z ->
  0 < inventory_days m /\ inventory_category m <> None.
Proof.
  intros H Hu. apply in_analysis_frame in H.
  destruct H as [s [-> [_ [Hl _]]]]. simpl in *.
  assert (Hpos : 0 < days_on_hand (inventory_level s) (units_sold s)).
  { apply (days_on_hand_gt _ _ _ Hu). q2z. }
  split; [exact Hpos|].
  set (d := days_on_hand (inventory_level s) (units_sold s)) in *.
  destruct (categorize_bins d) as [_ [H1 [H2 [H3 H4]]]].
  destruct (Qlt_le_dec 15 d) as [A|A]; [|rewrite H1; [discriminate|split; assumption]].
  destruct (Qlt_le_dec 30 d) as [B|B]; [|rewrite H2; [discriminate|split; assumption]].
  destruct (Qlt_le_dec 60 d) as [C|C]; [|rewrite H3; [discriminate|split; assumption]].
  rewrite H4; [discriminate|assumption].
Qed.

Lemma analysis_rows_categorized_witness :
  let m := add_metrics (select_row (stock_row "Toys" "North" "Winter" 100 10 50 0)) in
  0 < inventory_days m /\ inventory_category m <> None.
Proof.
  apply (analysis_rows_categorized
           [stock_row "Toys" "North" "Winter" 100 10 50 0]).
  - simpl. left. reflexivity.
  - simpl. lia.
Defined.

(** ** Dead stock and slow-moving items (C9) *)

Lemma dead_stock_row_is_slow_moving (s : retail_inventory) :
  (0 < inventory_level s)%Z -> (0 <= units_sold s)%Z ->
  is_dead_stock (add_metrics (select_row s)) = true ->
  is_slow_moving (add_metrics (select_row s)) = true.
Proof.
  intros Hl Hu. unfold is_dead_stock, is_slow_moving. simpl.
  intros H. apply andb_true_iff in H. destruct H as [Hd H1].
  apply Qlt_bool_iff in Hd. apply Z.leb_le in H1.
  apply andb_true_iff. split; apply Qlt_bool_iff.
  - apply Qlt_trans with 90; [reflexivity | exact Hd].
  - unfold sql_turnover_ratio.
    apply Z.ltb_lt in Hl as Hl'. rewrite Hl'.
    setoid_replace (3 # 10) with (3000 # 10000) by reflexivity.
    apply sql_int_div_lt; [exact Hu | exact Hl |].
    apply (days_on_hand_gt _ _ _ Hu) in Hd.
    assert (Hz : (30 * units_sold s + 3 < 10 * inventory_level s)%Z) by q2z.
    lia.
Qed.

(** C9: on the frame of the analysis query, with sales that are not
    negative, every dead-stock row is also a slow-moving row. *)
Theorem dead_stock_within_slow_moving (db : list retail_inventory) :
  Forall (fun s => (0 <= units_sold s)%Z) db ->
  incl (dead_stock (problem_segments (analysis_frame db)))
       (slow_moving (problem_segments (analysis_frame db))).
Proof.
  intros Hdb m Hm. unfold problem_segments in *. simpl in *.
  apply filter_In in Hm. destruct Hm as [Hin Hdead].
  apply filter_In. split; [exact Hin|].
  apply in_analysis_frame in Hin. destruct Hin as [s [-> [Hs [Hl _]]]].
  rewrite Forall_forall in Hdb.
  apply dead_stock_row_is_slow_moving; auto.
Qed.

Lemma dead_stock_within_slow_moving_witness :
  let db := [stock_row "Toys" "North" "Winter" 20 0 10 0;
             stock_row "Toys" "South" "Summer" 100 50 10 5] in
  incl (dead_stock (problem_segments (analysis_frame db)))
       (slow_moving (problem_segments (analysis_frame db))).
Proof.
  apply dead_stock_within_slow_moving.
  repeat constructor; simpl; lia.
Defined.

(** ** Sorting and quantiles do not see the row order *)

Lemma Qle_bool_total (x y : Q) : Qle_bool x y = false -> Qle_bool y x = true.
Proof.
  intros H. apply Qle_bool_false_iff in H. apply Qle_bool_iff.
  now apply Qlt_le_weak.
Qed.

Lemma insert_eqv (x x' : Q) (s s' : list Q) :
  x == x' -> Forall2 Qeq s s' ->
  Forall2 Qeq (insert Qle_bool x s) (insert Qle_bool x' s').
Proof.
  intros Hx H. induction H as [|y y' s s' Hy H IH]; simpl.
  - constructor; [exact Hx | constructor].
  - rewrite <- Hx, <- Hy. destruct (Qle_bool x y).
    + constructor; [exact Hx|]. constructor; assumption.
    + constructor; assumption.
Qed.

Lemma Forall2_Qeq_refl (s : list Q) : Forall2 Qeq s s.
Proof.
  induction s; constructor; [reflexivity | assumption].
Qed.

Lemma Forall2_Qeq_trans (s1 s2 s3 : list Q) :
  Forall2 Qeq s1 s2 -> Forall2 Qeq s2 s3 -> Forall2 Qeq s1 s3.
Proof.
  intros H. revert s3. induction H as [|x y s1 s2 Hxy H IH]; intros s3 H3.
  - inversion H3. constructor.
  - inversion H3 as [|y' z s2' s3' Hyz H3' E1 E2]. subst.
    constructor; [now rewrite Hxy | now apply IH].
Qed.

(** Two insertions commute, up to the equality of rationals. *)
Ltac order_facts :=
  repeat match goal with
         | H : Qle_bool _ _ = true |- _ => apply Qle_bool_iff in H
         | H : Qle_bool _ _ = false |- _ => apply Qle_bool_false_iff in H
         end.

Lemma insert_insert (x y : Q) (s : list Q) :
  Forall2 Qeq (insert Qle_bool x (insert Qle_bool y s))
              (insert Qle_bool y (insert Qle_bool x s)).
Proof.
  induction s as [|z s IH]; simpl.
  - destruct (Qle_bool x y) eqn:Exy, (Qle_bool y x) eqn:Eyx; order_facts;
      first [ exfalso; lra
            | repeat (constructor; [lra|]); constructor ].
  - destruct (Qle_bool y z) eqn:Eyz, (Qle_bool x z) eqn:Exz;
      destruct (Qle_bool x y) eqn:Exy, (Qle_bool y x) eqn:Eyx;
      repeat (simpl; rewrite ?Exy, ?Eyx, ?Exz, ?Eyz); order_facts;
      first [ exfalso; lra
            | repeat (constructor; [lra|]);
              first [ exact IH | apply Forall2_Qeq_refl ] ].
Qed.

Lemma stable_sort_perm (l l' : list Q) :
  Permutation l l' ->
  Forall2 Qeq (stable_sort Qle_bool l) (stable_sort Qle_bool l').
Proof.
  induction 1 as [|x l l' _ IH|x y l|l1 l2 l3 _ IH1 _ IH2]; simpl.
  - constructor.
  - apply insert_eqv; [reflexivity | exact IH].
  - apply insert_insert.
  - now apply Forall2_Qeq_trans with (stable_sort Qle_bool l2).
Qed.

Lemma Forall2_Qeq_length (s s' : list Q) :
  Forall2 Qeq s s' -> List.length s = List.length s'.
Proof.
  induction 1; simpl; congruence.
Qed.

Lemma Forall2_Qeq_nth (s s' : list Q) (d d' : Q) (n : nat) :
  Forall2 Qeq s s' -> d == d' -> nth n s d == nth n s' d'.
Proof.
  intros H Hd. revert n. induction H; intros [|n]; simpl; auto.
Qed.

Lemma quantile_perm (q : Q) (l l' : list Q) :
  Permutation l l' -> same_threshold (quantile q l) (quantile q l').
Proof.
  intros H. apply stable_sort_perm in H. unfold quantile.
  destruct H as [|v v' s s' Hv H]; [exact I|].
  assert (Hall : Forall2 Qeq (v :: s) (v' :: s')) by now constructor.
  cbv zeta. unfold same_threshold.
  rewrite <- (Forall2_Qeq_length _ _ Hall).
  set (pos := q * inject_Z (Z.of_nat (List.length (v :: s)) - 1)).
  set (lo := Z.to_nat (Qfloor pos)).
  set (hi := Nat.min (S lo) (List.length (v :: s) - 1)).
  rewrite (Forall2_Qeq_nth _ _ v v' lo Hall Hv).
  rewrite (Forall2_Qeq_nth _ _ v v' hi Hall Hv).
  reflexivity.
Qed.

Lemma gt_threshold_eqv (x x' : Q) (t t' : option Q) :
  x == x' -> same_threshold t t' -> gt_threshold x t = gt_threshold x' t'.
Proof.
  intros Hx Ht. destruct t, t'; simpl in *; try contradiction; auto.
  now rewrite Hx, Ht.
Qed.

Lemma lt_threshold_eqv (x x' : Q) (t t' : option Q) :
  x == x' -> same_threshold t t' -> lt_threshold x t = lt_threshold x' t'.
Proof.
  intros Hx Ht. destruct t, t'; simpl in *; try contradiction; auto.
  now rewrite Hx, Ht.
Qed.

(** Membership in the Overstocked segment is a function of the row's two
    values and of the two multisets of column values. *)
Lemma is_overstocked_multiset (df df' : list metric_row) (m m' : metric_row) :
  Permutation (map overstock_col df) (map overstock_col df') ->
  Permutation (map efficiency_score df) (map efficiency_score df') ->
  overstock_col m == overstock_col m' ->
  efficiency_score m == efficiency_score m' ->
  is_overstocked df m = is_overstocked df' m'.
Proof.
  intros Ho He Hm1 Hm2. unfold is_overstocked. f_equal.
  - apply gt_threshold_eqv; [exact Hm1 | now apply quantile_perm].
  - apply lt_threshold_eqv; [exact Hm2 | now apply quantile_perm].
Qed.

Lemma filter_perm {A : Type} (f : A -> bool) (l l' : list A) :
  Permutation l l' -> Permutation (filter f l) (filter f l').
Proof.
  induction 1 as [|x l l' _ IH|x y l|l1 l2 l3 _ IH1 _ IH2]; simpl.
  - constructor.
  - destruct (f x); [now constructor | exact IH].
  - destruct (f x), (f y); try apply Permutation_refl. apply perm_swap.
  - now apply Permutation_trans with (filter f l2).
Qed.

(** ** The Overstocked segment and the row order (C6) *)

(** C6: permuting the rows of the table changes neither which rows satisfy
    the Overstocked predicate nor, up to order, the segment; the predicate
    depends only on the row's two values and on the multisets of
    [overstock_units] and [efficiency_score] in the table. *)
Theorem overstocked_order_invariant (df df' : list metric_row) :
  Permutation df df' ->
  (forall m, is_overstocked df m = is_overstocked df' m)
  /\ Permutation (overstocked (problem_segments df))
                 (overstocked (problem_segments df'))
  /\ (forall tbl m m',
        Permutation (map overstock_col df) (map overstock_col tbl) ->
        Permutation (map efficiency_score df) (map efficiency_score tbl) ->
        overstock_col m == overstock_col m' ->
        efficiency_score m == efficiency_score m' ->
        is_overstocked df m = is_overstocked tbl m').
Proof.
  intros H.
  assert (Hrow : forall m, is_overstocked df m = is_overstocked df' m).
  { intros m. apply is_overstocked_multiset;
      try reflexivity; now apply Permutation_map. }
  split; [exact Hrow|]. split.
  - simpl. rewrite (filter_ext _ _ Hrow df). now apply filter_perm.
  - intros tbl m m'. apply is_overstocked_multiset.
Qed.

Lemma overstocked_order_invariant_witness :
  let a := add_metrics (select_row (stock_row "Toys" "North" "Winter" 100 10 50 0)) in
  let b := add_metrics (select_row (stock_row "Toys" "South" "Summer" 500 1 10 5)) in
  let c := add_metrics (select_row (stock_row "Toys" "East" "Spring" 40 30 10 5)) in
  Permutation (overstocked (problem_segments [a; b; c]))
              (overstocked (problem_segments [b; a; c])).
Proof.
  intros a b c.
  apply (proj1 (proj2 (overstocked_order_invariant [a; b; c] [b; a; c]
                         (perm_swap b a [c])))).
Defined.

(** ** The segment classifier on an empty table (C2) *)

(** C2, as the specification words it, fails: on a table without rows the
    classifier raises nothing and returns three empty segments. *)
Lemma empty_frame_returns_empty_segments :
  identify_problem_areas (Some [])
  = Ok (Some {| slow_moving := []; overstocked := []; dead_stock := [] |})
  /\ ~ (exists e, identify_problem_areas (Some []) = Raise e).
Proof.
  split; [reflexivity|]. intros [e He]. discriminate He.
Qed.

(** C2 (amended): on a table without rows both quantiles are NaN, no error
    is raised and the three segments come back empty; the classifier raises
    on no table at all. *)
Theorem empty_frame_quantiles_nan :
  quantile (8 # 10) (map overstock_col []) = None
  /\ quantile (3 # 10) (map efficiency_score []) = None
  /\ (exists out, identify_problem_areas (Some []) = Ok (Some out)
        /\ slow_moving out = [] /\ overstocked out = [] /\ dead_stock out = [])
  /\ forall self_df e, identify_problem_areas self_df <> Raise e.
Proof.
  split; [reflexivity|]. split; [reflexivity|]. split.
  - eexists. split; [reflexivity|]. repeat split.
  - intros [df|] e; discriminate.
Qed.

(** ** Group-by sums (C5) *)

Lemma Qsum_app (l1 l2 : list Q) : Qsum (l1 ++ l2) == Qsum l1 + Qsum l2.
Proof.
  induction l1 as [|x l1 IH]; simpl; [ring | rewrite IH; ring].
Qed.

Section PartitionSum.
Context {K R : Type} (cmp : K -> K -> comparison) (col : R -> Q).
Local Abbreviation groups_total := (groups_total col).

Lemma add_to_group_total (k : K) (r : R) (gs : list (K * list R)) :
  groups_total (add_to_group cmp k r gs) == groups_total gs + col r.
Proof.
  unfold groups_total.
  induction gs as [|[k' rs] gs IH]; simpl.
  - unfold col_sum. simpl. ring.
  - destruct (cmp k k'); simpl.
    + unfold col_sum. rewrite map_app, Qsum_app. simpl. ring.
    + unfold col_sum. simpl. ring.
    + rewrite IH. ring.
Qed.

Lemma fold_groups_total (key : R -> K) (df : list R) (gs : list (K * list R)) :
  groups_total (fold_left (fun gs r => add_to_group cmp (key r) r gs) df gs)
  == groups_total gs + Qsum (map col df).
Proof.
  revert gs. induction df as [|r df IH]; intros gs; simpl.
  - ring.
  - rewrite IH, add_to_group_total. ring.
Qed.
End PartitionSum.

(** In exact arithmetic the group sums of a column add up to the sum of
    the column over the whole table, whatever the grouping key. *)
Lemma groupby_sum_total {K R : Type} (cmp : K -> K -> comparison)
    (key : R -> K) (col : R -> Q) (df : list R) :
  Qsum (map snd (groupby_sum cmp key col df)) == Qsum (map col df).
Proof.
  unfold groupby_sum, groupby.
  change (groups_total col
            (fold_left (fun gs r => add_to_group cmp (key r) r gs) df [])
          == Qsum (map col df)).
  rewrite fold_groups_total. unfold groups_total. simpl. ring.
Qed.

Lemma Qsum_inject_Z (l : list Z) : Qsum (map inject_Z l) == inject_Z (Zsum l).
Proof.
  induction l as [|x l IH]; simpl; [reflexivity|].
  rewrite IH, inject_Z_plus. reflexivity.
Qed.

Lemma col_sum_inject_Z {R : Type} (col : R -> Z) (rows : list R) :
  col_sum (fun r => inject_Z (col r)) rows == inject_Z (Zsum (map col rows)).
Proof.
  unfold col_sum. rewrite <- Qsum_inject_Z, map_map. reflexivity.
Qed.

#[global] Instance rint_comp : Proper (Qeq ==> eq) rint.
Proof.
  intros x y E. unfold rint. rewrite (Qfloor_comp x y E).
  assert (Ec : Qcompare (x - inject_Z (Qfloor y)) (1 # 2)
               = Qcompare (y - inject_Z (Qfloor y)) (1 # 2))
    by (now rewrite E).
  now rewrite Ec.
Qed.

#[global] Instance round3_comp : Proper (Qeq ==> Qeq) round3.
Proof.
  intros x y E. unfold round3. now rewrite E.
Qed.

(** Rounding to three decimals leaves an integer as it is. *)
Lemma round3_integer (z : Z) : round3 (inject_Z z) == inject_Z z.
Proof.
  unfold round3.
  assert (E : inject_Z z * 1000 == inject_Z (z * 1000))
    by (rewrite inject_Z_mult; reflexivity).
  rewrite E. unfold rint. rewrite Qfloor_Z.
  assert (L : Qcompare (inject_Z (z * 1000) - inject_Z (z * 1000)) (1 # 2) = Lt)
    by (apply (proj1 (Qlt_alt _ _)); lra).
  rewrite L, inject_Z_mult. field.
Qed.

(** The rounded sums of an integer column of a grouped table add up to the
    exact total of the groups. *)
Lemma rounded_integer_sums {K V : Type} (col : metric_row -> Z)
    (F : list metric_row -> V) (cell : V -> Q)
    (gs : list (K * list metric_row)) :
  (forall rows, cell (F rows) = round3 (col_sum (fun m => inject_Z (col m)) rows)) ->
  Qsum (map (fun g => cell (snd g)) (agg F gs))
  == groups_total (fun m => inject_Z (col m)) gs.
Proof.
  intros HF. unfold groups_total, agg.
  induction gs as [|[k rows] gs IH]; simpl; [reflexivity|].
  rewrite IH, HF, col_sum_inject_Z, round3_integer. reflexivity.
Qed.

(** C5, as the specification words it, fails on the table [seasonal_analysis]
    builds: its sums are rounded to three decimals, and two groups with a
    net revenue of 0.0004 each (one unit at a price of 0.01 and a discount
    of 96) show 0 and 0, where the column adds up to 0.0008. *)
Lemma rounded_group_sums_miss_total :
  let df := analysis_frame [stock_row "Toys" "North" "Winter" 10 1 (1 # 100) 96;
                            stock_row "Food" "North" "Summer" 10 1 (1 # 100) 96] in
  Qsum (map net_revenue_of df) == 8 # 10000
  /\ Qsum (map (fun g => sm_net_revenue (snd g)) (seasonal_metrics df)) == 0
  /\ ~ Qsum (map (fun g => sm_net_revenue (snd g)) (seasonal_metrics df))
        == Qsum (map net_revenue_of df).
Proof.
  repeat split. discriminate.
Qed.

(** C5 (amended): for an integer column the group sums add up to the sum of
    the column over the whole table, whatever the grouping key; and this is
    so in the rounded table of [seasonal_analysis] for its integer columns
    [units_sold] and [overstock_units]. *)
Theorem integer_groupby_sum_partition :
  (forall (K R : Type) (cmp : K -> K -> comparison) (key : R -> K)
          (col : R -> Z) (df : list R),
     Zsum (map snd (groupby_sum_int cmp key col df)) = Zsum (map col df))
  /\ forall df : list metric_row,
       Qsum (map (fun g => sm_units_sold (snd g)) (seasonal_metrics df))
       == inject_Z (Zsum (map (fun m => units_sold (stored (loaded m))) df))
       /\ Qsum (map (fun g => sm_overstock_units (snd g)) (seasonal_metrics df))
          == inject_Z (Zsum (map (fun m => overstock_units (loaded m)) df)).
Proof.
  split.
  - intros K R cmp key col df. apply inject_Z_injective.
    rewrite <- !Qsum_inject_Z, (map_map col inject_Z).
    rewrite <- (groupby_sum_total cmp key (fun r => inject_Z (col r)) df).
    unfold groupby_sum_int, groupby_sum, agg.
    induction (groupby cmp key df) as [|[k rows] gs IH]; simpl; [reflexivity|].
    rewrite IH, col_sum_inject_Z. reflexivity.
  - intros df. unfold seasonal_metrics. split.
    + rewrite (rounded_integer_sums (fun m => units_sold (stored (loaded m))))
        by reflexivity.
      unfold groupby. rewrite fold_groups_total. unfold groups_total. simpl.
      rewrite <- Qsum_inject_Z, map_map. ring.
    + rewrite (rounded_integer_sums (fun m => overstock_units (loaded m)))
        by reflexivity.
      unfold groupby. rewrite fold_groups_total. unfold groups_total. simpl.
      rewrite <- Qsum_inject_Z, map_map. ring.
Qed.

(** ** Significance tests (C4) *)

Lemma test_relationship_reported (pearsonr : list Q -> list Q -> Q * Q)
    (v1 v2 : string) (cells : list (option Q * option Q)) :
  forall t, In t (test_relationship pearsonr v1 v2 cells) ->
            var1 t = v1 /\ var2 t = v2.
Proof.
  intros t. unfold test_relationship.
  destruct (10 <? List.length (dropna cells))%nat; [|intros []].
  destruct (pearsonr _ _) as [c p]. intros [<-|[]]. split; reflexivity.
Qed.

Lemma test_relationship_iff (pearsonr : list Q -> list Q -> Q * Q)
    (v1 v2 : string) (cells : list (option Q * option Q)) :
  reported v1 v2 (test_relationship pearsonr v1 v2 cells)
  <-> (10 < List.length (dropna cells))%nat.
Proof.
  unfold reported, test_relationship.
  destruct (10 <? List.length (dropna cells))%nat eqn:E.
  - apply Nat.ltb_lt in E. split; [intros _; exact E|]. intros _.
    destruct (pearsonr _ _) as [c p]. eexists. split; [left; reflexivity|].
    split; reflexivity.
  - apply Nat.ltb_ge in E. split.
    + intros [t [[] _]].
    + intros H. lia.
Qed.

(** C4: a pair of columns is tested, and its result reported, exactly when
    more than 10 rows are left once the rows with a NaN are dropped; this
    holds for the three pairs the analysis tests. *)
Theorem significance_tested_iff_above_10 (pearsonr : list Q -> list Q -> Q * Q) :
  (forall v1 v2 cells,
     reported v1 v2 (test_relationship pearsonr v1 v2 cells)
     <-> (10 < List.length (dropna cells))%nat)
  /\ (forall df v1 v2, In (v1, v2) relationships_to_test ->
        (reported v1 v2 (significance_tests pearsonr df)
         <-> (10 < List.length (dropna (select2 v1 v2 df)))%nat)).
Proof.
  split; [apply test_relationship_iff|].
  intros df v1 v2 Hin.
  rewrite <- (test_relationship_iff pearsonr v1 v2).
  unfold reported, significance_tests. split.
  - intros [t [Ht [E1 E2]]]. apply in_flat_map in Ht.
    destruct Ht as [[w1 w2] [_ Ht]]. simpl in Ht.
    destruct (test_relationship_reported _ _ _ _ _ Ht) as [F1 F2].
    assert (Hw1 : w1 = v1) by congruence.
    assert (Hw2 : w2 = v2) by congruence.
    rewrite Hw1, Hw2 in Ht. exists t. auto.
  - intros [t [Ht [E1 E2]]]. exists t. split; [|auto].
    apply in_flat_map. exists (v1, v2). split; [exact Hin | exact Ht].
Qed.

Lemma significance_tested_iff_above_10_witness :
  reported "inventory_days" "profit_margin"
           (significance_tests fixture_pearsonr (frame_of_size 11))
  /\ ~ reported "inventory_days" "profit_margin"
                (significance_tests fixture_pearsonr (frame_of_size 10)).
Proof.
  split.
  - apply (proj2 (significance_tested_iff_above_10 fixture_pearsonr)
             (frame_of_size 11) _ _ (or_introl eq_refl)).
    simpl. lia.
  - intros H.
    apply (proj2 (significance_tested_iff_above_10 fixture_pearsonr)
             (frame_of_size 10) _ _ (or_introl eq_refl)) in H.
    simpl in H. lia.
Defined.

(** ** Extremum selection (C8) *)

Section ArgFirst.
Context {K : Type} (better : Q -> Q -> bool) (before after : Q -> Q -> Prop).
Hypothesis better_true : forall new cur, better new cur = true -> before cur new.
Hypothesis better_false : forall new cur, better new cur = false -> after new cur.
Hypothesis before_trans : forall a b c, before a b -> before b c -> before a c.
Hypothesis after_before : forall a b c, after a b -> before b c -> before a c.

Lemma arg_first_placed (l done seen : list (K * Q)) (k : K) (v : Q) :
  Forall (fun p => before (snd p) v) done ->
  Forall (fun p => after (snd p) v) seen ->
  placed before after (done ++ (k, v) :: seen ++ l) (arg_first better k v l).
Proof.
  revert done seen k v.
  induction l as [|[k' v'] l IH]; intros done seen k v Hd Hs; simpl.
  - exists v, done, seen. rewrite app_nil_r. auto.
  - destruct (better v' v) eqn:E.
    + apply better_true in E.
      replace (done ++ (k, v) :: seen ++ (k', v') :: l)
        with ((done ++ (k, v) :: seen) ++ (k', v') :: [] ++ l)
        by (rewrite <- app_assoc; reflexivity).
      apply IH; [|constructor].
      apply Forall_app. split.
      * eapply Forall_impl; [|exact Hd]. intros p Hp. simpl in *.
        now apply before_trans with v.
      * constructor; [exact E|].
        eapply Forall_impl; [|exact Hs]. intros p Hp. simpl in *.
        now apply after_before with v.
    + apply better_false in E.
      replace (done ++ (k, v) :: seen ++ (k', v') :: l)
        with (done ++ (k, v) :: (seen ++ [(k', v')]) ++ l)
        by (rewrite <- app_assoc; reflexivity).
      apply IH; [exact Hd|].
      apply Forall_app. split; [exact Hs|]. constructor; [exact E|constructor].
Qed.
End ArgFirst.

Lemma idxmax_first_max {K : Type} (s : list (K * Q)) (k : K) :
  idxmax s = Ok k -> first_max s k.
Proof.
  destruct s as [|[k0 v0] l]; simpl; [discriminate|].
  intros H. injection H as <-.
  apply (arg_first_placed _ (fun a v => a < v) (fun a v => a <= v))
    with (done := []) (seen := []); try constructor.
  - intros new cur. apply Qlt_bool_iff.
  - intros new cur. apply Qlt_bool_false_iff.
  - intros a b c. apply Qlt_trans.
  - intros a b c. apply Qle_lt_trans.
Qed.

Lemma idxmin_first_min {K : Type} (s : list (K * Q)) (k : K) :
  idxmin s = Ok k -> first_min s k.
Proof.
  destruct s as [|[k0 v0] l]; simpl; [discriminate|].
  intros H. injection H as <-.
  apply (arg_first_placed _ (fun a v => v < a) (fun a v => v <= a))
    with (done := []) (seen := []); try constructor.
  - intros new cur. apply Qlt_bool_iff.
  - intros new cur. apply Qlt_bool_false_iff.
  - intros a b c H1 H2. now apply Qlt_trans with b.
  - intros a b c H1 H2. now apply Qlt_le_trans with b.
Qed.

(** What the stable sort puts first and last. *)
Section StableSortEnds.
Context {K : Type}.
Implicit Types (x y : K * Q) (m t : list (K * Q)).

Lemma insert_perm x m : Permutation (insert by_value x m) (x :: m).
Proof.
  induction m as [|z m IH]; simpl; [apply Permutation_refl|].
  destruct (by_value x z); [apply Permutation_refl|].
  apply Permutation_trans with (z :: x :: m);
    [now constructor | apply perm_swap].
Qed.

Lemma stable_sort_permutation m : Permutation (stable_sort by_value m) m.
Proof.
  induction m as [|x m IH]; simpl; [constructor|].
  apply Permutation_trans with (x :: stable_sort by_value m);
    [apply insert_perm | now constructor].
Qed.

(** The head of the sorted list is the first row with the least score. *)
Lemma stable_sort_head m y t :
  stable_sort by_value m = y :: t ->
  exists m1 m2, m = m1 ++ y :: m2
    /\ Forall (fun z => snd y < snd z) m1
    /\ Forall (fun z => snd y <= snd z) m2.
Proof.
  revert y t. induction m as [|x m IH]; intros y t; simpl; [discriminate|].
  destruct (stable_sort by_value m) as [|y' t'] eqn:E; simpl.
  - intros H. injection H as <- <-.
    assert (m = []) as ->.
    { pose proof (stable_sort_permutation m) as P. rewrite E in P.
      now apply Permutation_nil in P. }
    exists [], []. repeat split; constructor.
  - destruct (IH y' t' eq_refl) as [m1 [m2 [-> [H1 H2]]]].
    unfold by_value at 1. destruct (Qle_bool (snd x) (snd y')) eqn:L.
    + apply Qle_bool_iff in L. intros H. injection H as <- <-.
      exists [], (m1 ++ y' :: m2). repeat split; [constructor|].
      apply Forall_app. split.
      * eapply Forall_impl; [|exact H1]. intros z Hz. simpl in *.
        apply Qlt_le_weak. now apply Qle_lt_trans with (snd y').
      * constructor; [exact L|].
        eapply Forall_impl; [|exact H2]. intros z Hz. simpl in *.
        now apply Qle_trans with (snd y').
    + apply Qle_bool_false_iff in L. intros H. injection H as <- <-.
      exists (x :: m1), m2. repeat split; [|exact H2].
      constructor; [exact L | exact H1].
Qed.

Lemma insert_last x m t y :
  insert by_value x m = t ++ [y] ->
  (y = x /\ Forall (fun z => snd z < snd x) m)
  \/ (exists t', m = t' ++ [y] /\ exists z, In z m /\ snd x <= snd z).
Proof.
  revert t. induction m as [|z m IH]; intros t; simpl.
  - intros H. destruct t as [|a [|b t]]; try discriminate.
    injection H as <-. left. split; [reflexivity | constructor].
  - unfold by_value at 1. destruct (Qle_bool (snd x) (snd z)) eqn:L.
    + apply Qle_bool_iff in L. intros H. right.
      destruct t as [|a t]; [destruct m; discriminate|].
      injection H as <- H. exists t. split; [now rewrite H|].
      exists z. split; [now left | exact L].
    + apply Qle_bool_false_iff in L. intros H.
      destruct t as [|a t].
      { destruct m; simpl in H; try discriminate.
        destruct (by_value x p); discriminate. }
      injection H as <- H. destruct (IH t H) as [[-> Hall]|[t' [-> [w [Hw Hle]]]]].
      * left. split; [reflexivity|]. constructor; assumption.
      * right. exists (z :: t'). split; [reflexivity|].
        exists w. split; [now right | exact Hle].
Qed.

(** The last row of the sorted list is the last row with the greatest
    score. *)
Lemma stable_sort_last m t y :
  stable_sort by_value m = t ++ [y] ->
  exists m1 m2, m = m1 ++ y :: m2
    /\ Forall (fun z => snd z <= snd y) m1
    /\ Forall (fun z => snd z < snd y) m2.
Proof.
  revert t y. induction m as [|x m IH]; intros t y; simpl.
  - intros H. destruct t; discriminate.
  - intros H. apply insert_last in H.
    destruct H as [[-> Hall]|[t' [E [z [Hz Hle]]]]].
    + exists [], m. repeat split; [constructor|].
      rewrite Forall_forall in *. intros w Hw. apply Hall.
      apply Permutation_in with m; [|exact Hw].
      apply Permutation_sym, stable_sort_permutation.
    + destruct (IH t' y E) as [m1 [m2 [-> [H1 H2]]]].
      exists (x :: m1), m2. repeat split; [|exact H2].
      constructor; [|exact H1].
      apply Qle_trans with (snd z); [exact Hle|].
      apply (Permutation_in _ (stable_sort_permutation _)) in Hz.
      apply in_app_or in Hz. rewrite Forall_forall in H1, H2.
      destruct Hz as [Hz|[<-|Hz]].
      * now apply H1.
      * apply Qle_refl.
      * apply Qlt_le_weak. now apply H2.
Qed.
End StableSortEnds.

Lemma sorted_desc_first {K : Type} (s : list (K * Q)) (k : K) :
  index_first (sort_values_desc s) = Ok k -> first_max s k.
Proof.
  unfold sort_values_desc, index_first.
  destruct (rev (stable_sort by_value (rev s))) as [|[k' v] rest] eqn:E;
    [discriminate|].
  intros H. injection H as ->.
  apply (f_equal (@rev _)) in E. rewrite rev_involutive in E. simpl in E.
  apply stable_sort_last in E. destruct E as [m1 [m2 [E [H1 H2]]]].
  apply (f_equal (@rev _)) in E. rewrite rev_involutive in E.
  rewrite rev_app_distr in E. simpl in E. rewrite <- app_assoc in E. simpl in E.
  exists v, (rev m2), (rev m1). split; [exact E|].
  split; apply Forall_rev; assumption.
Qed.

Lemma sorted_desc_last {K : Type} (s : list (K * Q)) (k : K) :
  index_last (sort_values_desc s) = Ok k -> last_min s k.
Proof.
  unfold index_last, sort_values_desc, index_first. rewrite rev_involutive.
  destruct (stable_sort by_value (rev s)) as [|[k' v] rest] eqn:E;
    [discriminate|].
  intros H. injection H as ->.
  apply stable_sort_head in E. destruct E as [m1 [m2 [E [H1 H2]]]].
  apply (f_equal (@rev _)) in E. rewrite rev_involutive in E.
  rewrite rev_app_distr in E. simpl in E. rewrite <- app_assoc in E. simpl in E.
  exists v, (rev m2), (rev m1). split; [exact E|].
  split; apply Forall_rev; assumption.
Qed.

Lemma sort_values_desc_nonempty {K : Type} (s : list (K * Q)) :
  s <> [] -> sort_values_desc s <> [].
Proof.
  intros Hs E. apply Hs. unfold sort_values_desc in E.
  apply (f_equal (@rev _)) in E. rewrite rev_involutive in E. simpl in E.
  pose proof (stable_sort_permutation (rev s)) as P. rewrite E in P.
  apply Permutation_nil in P.
  apply (f_equal (@rev _)) in P. now rewrite rev_involutive in P.
Qed.

Lemma add_to_group_nonempty {K R : Type} (cmp : K -> K -> comparison)
    (k : K) (r : R) (gs : list (K * list R)) :
  add_to_group cmp k r gs <> [].
Proof.
  destruct gs as [|[k' rs] gs]; simpl; [discriminate|].
  destruct (cmp k k'); discriminate.
Qed.

Lemma groupby_nonempty {K R : Type} (cmp : K -> K -> comparison)
    (key : R -> K) (df : list R) :
  df <> [] -> groupby cmp key df <> [].
Proof.
  unfold groupby. intros H.
  destruct (exists_last H) as [df' [r ->]].
  rewrite fold_left_app. simpl. apply add_to_group_nonempty.
Qed.

Lemma map_nonempty {A B : Type} (f : A -> B) (l : list A) :
  l <> [] -> map f l <> [].
Proof.
  destruct l; [congruence | discriminate].
Qed.

(** The keys of a grouped table are pairwise different. *)
Section GroupKeys.
Context {K R : Type} (cmp : K -> K -> comparison).
Hypothesis cmp_refl : forall k, cmp k k = Eq.
Hypothesis cmp_gt_lt : forall a b, cmp a b = Gt -> cmp b a = Lt.
Hypothesis cmp_lt_trans : forall a b c, cmp a b = Lt -> cmp b c = Lt -> cmp a c = Lt.

Local Abbreviation key_lt := (fun a b : K * list R => cmp (fst a) (fst b) = Lt).

Lemma add_to_group_keys (P : K -> Prop) (k : K) (r : R) (gs : list (K * list R)) :
  P k -> Forall (fun g => P (fst g)) gs ->
  Forall (fun g => P (fst g)) (add_to_group cmp k r gs).
Proof.
  intros Hk. induction gs as [|[k' rs] gs IH]; intros H; simpl.
  - constructor; [exact Hk | constructor].
  - inversion H as [|? ? Hk' Hgs]. subst. destruct (cmp k k').
    + constructor; assumption.
    + constructor; [exact Hk | exact H].
    + constructor; [exact Hk' | now apply IH].
Qed.

Lemma add_to_group_sorted (k : K) (r : R) (gs : list (K * list R)) :
  StronglySorted key_lt gs -> StronglySorted key_lt (add_to_group cmp k r gs).
Proof.
  induction gs as [|[k' rs] gs IH]; intros H; simpl.
  - repeat constructor.
  - inversion H as [|? ? Hgs Hall]. subst. destruct (cmp k k') eqn:E.
    + constructor; assumption.
    + constructor; [exact H|]. constructor; [exact E|].
      eapply Forall_impl; [|exact Hall]. intros g Hg. simpl in *.
      now apply cmp_lt_trans with k'.
    + constructor; [now apply IH|].
      apply (add_to_group_keys (fun x => cmp k' x = Lt));
        [now apply cmp_gt_lt | exact Hall].
Qed.

Lemma groupby_sorted (key : R -> K) (df : list R) :
  StronglySorted key_lt (groupby cmp key df).
Proof.
  unfold groupby.
  assert (G : forall gs, StronglySorted key_lt gs ->
              StronglySorted key_lt
                (fold_left (fun gs r => add_to_group cmp (key r) r gs) df gs)).
  { induction df as [|r df IH]; intros gs H; simpl; [exact H|].
    apply IH. now apply add_to_group_sorted. }
  apply G. constructor.
Qed.

Lemma sorted_keys_nodup (gs : list (K * list R)) :
  StronglySorted key_lt gs -> NoDup (map fst gs).
Proof.
  induction 1 as [|g gs Hs IH Hall]; simpl; constructor; [|exact IH].
  intros Hin. apply in_map_iff in Hin. destruct Hin as [g' [E Hg']].
  rewrite Forall_forall in Hall. specialize (Hall g' Hg'). simpl in Hall.
  rewrite E, cmp_refl in Hall. discriminate.
Qed.

Lemma groupby_keys_nodup (key : R -> K) (df : list R) :
  NoDup (map fst (groupby cmp key df)).
Proof.
  apply sorted_keys_nodup, groupby_sorted.
Qed.
End GroupKeys.

Lemma string_groupby_keys_nodup {R : Type} (key : R -> string) (df : list R) :
  NoDup (map fst (groupby String.compare key df)).
Proof.
  apply groupby_keys_nodup.
  - intros k. now apply OrderedTypeEx.String_as_OT.cmp_eq.
  - intros a b H. rewrite String.compare_antisym in H.
    destruct (String.compare b a); simpl in H; congruence.
  - intros a b c H1 H2.
    apply OrderedTypeEx.String_as_OT.cmp_lt in H1, H2.
    apply OrderedTypeEx.String_as_OT.cmp_lt.
    now apply OrderedTypeEx.String_as_OT.lt_trans with b.
Qed.

Lemma agg_keys {K R V : Type} (f : list R -> V) (gs : list (K * list R)) :
  map fst (agg f gs) = map fst gs.
Proof.
  unfold agg. rewrite map_map. reflexivity.
Qed.

Lemma sort_values_desc_perm {K : Type} (s : list (K * Q)) :
  Permutation (sort_values_desc s) s.
Proof.
  unfold sort_values_desc.
  apply Permutation_trans with (stable_sort by_value (rev s));
    [apply Permutation_sym, Permutation_rev|].
  apply Permutation_trans with (rev s);
    [apply stable_sort_permutation | apply Permutation_sym, Permutation_rev].
Qed.

(** In a table of two or more rows with pairwise different labels, the first
    and the last label differ. *)
Lemma first_last_differ {K : Type} (s : list (K * Q)) (a b : K) :
  NoDup (map fst s) -> (2 <= List.length s)%nat ->
  index_first s = Ok a -> index_last s = Ok b -> a <> b.
Proof.
  intros Hnd Hlen Ha Hb. unfold index_last in Hb.
  destruct s as [|[k v] s]; simpl in *; [discriminate|].
  injection Ha as ->.
  destruct (rev s) as [|[k' v'] t] eqn:E.
  - apply (f_equal (@rev _)) in E. rewrite rev_involutive in E.
    subst s. simpl in Hlen. lia.
  - simpl in Hb. injection Hb as ->.
    inversion Hnd as [|? ? Hnotin _]. subst. intros Eab. apply Hnotin.
    apply in_map_iff. exists (b, v'). split; [now symmetry|].
    apply in_rev. rewrite E. now left.
Qed.

Lemma first_max_has_max {K : Type} (s : list (K * Q)) (k : K) :
  first_max s k -> has_max s k.
Proof.
  intros [v [l1 [l2 [-> [H1 H2]]]]]. exists v. split.
  - apply in_or_app. right. now left.
  - apply Forall_app. split.
    + eapply Forall_impl; [|exact H1]. intros p Hp. now apply Qlt_le_weak.
    + constructor; [apply Qle_refl | exact H2].
Qed.

Lemma last_min_has_min {K : Type} (s : list (K * Q)) (k : K) :
  last_min s k -> has_min s k.
Proof.
  intros [v [l1 [l2 [-> [H1 H2]]]]]. exists v. split.
  - apply in_or_app. right. now left.
  - apply Forall_app. split; [exact H1|].
    constructor; [apply Qle_refl|].
    eapply Forall_impl; [|exact H2]. intros p Hp. now apply Qlt_le_weak.
Qed.

(** C8, as the specification words it, fails for the seasons: two seasons
    with one and the same score are both the greatest and the least, and
    yet the best season is one of them and the worst season the other,
    while the two regions of equal score resolve to the first one. *)
Lemma season_tie_worst_is_last :
  map fst (seasonal_scores tie_frame) = ["Autumn"; "Winter"]%string
  /\ Forall (fun p => snd p == 10) (seasonal_scores tie_frame)
  /\ select_extremes tie_frame
     = Ok {| best_region := "East"; worst_region := "East";
             best_season := "Autumn"; worst_season := "Winter" |}
  /\ ~ first_min (seasonal_scores tie_frame) "Winter"%string.
Proof.
  split; [reflexivity|]. split; [repeat constructor|].
  split; [vm_compute; reflexivity|].
  intros [v [l1 [l2 [E [H1 H2]]]]].
  assert (E' : seasonal_scores tie_frame
               = [("Autumn"%string, snd (nth 0 (seasonal_scores tie_frame) ("x"%string, 0)));
                  ("Winter"%string, snd (nth 1 (seasonal_scores tie_frame) ("x"%string, 0)))])
    by reflexivity.
  rewrite E' in E. clear E'.
  destruct l1 as [|p1 [|p2 l1]].
  - simpl in E. discriminate E.
  - simpl in E. injection E as E0 E1 E2. subst p1.
    inversion H1 as [|? ? Hlt _]. subst. simpl in Hlt.
    vm_compute in Hlt. discriminate Hlt.
  - simpl in E. injection E as _ _ E. destruct l1; discriminate E.
Qed.

(** C8 (amended): on a table with at least one row the four selections
    succeed.  The best and the worst region are the first group, in key
    order, with the greatest and with the least score.  The best season is
    a group with the greatest score and the worst season a group with the
    least score, taken from the two ends of the sorted table: with two or
    more seasons they are never the same group, whatever the scores. *)
Theorem extremes_tie_break (df : list metric_row) :
  df <> [] ->
  exists ext, select_extremes df = Ok ext
    /\ first_max (regional_scores df) (best_region ext)
    /\ first_min (regional_scores df) (worst_region ext)
    /\ has_max (seasonal_scores df) (best_season ext)
    /\ has_min (seasonal_scores df) (worst_season ext)
    /\ ((2 <= List.length (seasonal_scores df))%nat ->
        best_season ext <> worst_season ext).
Proof.
  intros Hdf. unfold select_extremes.
  assert (Hr : regional_scores df <> []).
  { unfold regional_scores, regional_performance, agg.
    now apply map_nonempty, map_nonempty, groupby_nonempty. }
  assert (Hs : seasonal_perf df <> []).
  { unfold seasonal_perf, seasonal_scores, agg.
    now apply sort_values_desc_nonempty, map_nonempty, groupby_nonempty. }
  destruct (idxmax (regional_scores df)) as [br|e] eqn:E1;
    [|destruct (regional_scores df) as [|[? ?] ?]; [congruence | discriminate]].
  destruct (idxmin (regional_scores df)) as [wr|e] eqn:E2;
    [|destruct (regional_scores df) as [|[? ?] ?]; [congruence | discriminate]].
  destruct (index_first (seasonal_perf df)) as [bs|e] eqn:E3;
    [|destruct (seasonal_perf df) as [|[? ?] ?]; [congruence | discriminate]].
  destruct (index_last (seasonal_perf df)) as [ws|e] eqn:E4.
  - simpl. eexists. split; [reflexivity|]. simpl.
    split; [now apply idxmax_first_max|].
    split; [now apply idxmin_first_min|].
    split; [now apply first_max_has_max, sorted_desc_first|].
    split; [now apply last_min_has_min, sorted_desc_last|].
    intros Hlen. apply (first_last_differ (seasonal_perf df)); auto.
    + apply (Permutation_NoDup
               (Permutation_map fst (Permutation_sym
                  (sort_values_desc_perm (seasonal_scores df))))).
      unfold seasonal_scores. rewrite agg_keys.
      apply string_groupby_keys_nodup.
    + unfold seasonal_perf.
      rewrite (Permutation_length (sort_values_desc_perm (seasonal_scores df))).
      exact Hlen.
  - exfalso. unfold index_last in E4.
    assert (Hrev : rev (seasonal_perf df) <> []).
    { intros E. apply Hs. apply (f_equal (@rev _)) in E.
      now rewrite rev_involutive in E. }
    destruct (rev (seasonal_perf df)) as [|[? ?] ?]; [congruence | discriminate].
Qed.

Lemma extremes_tie_break_witness :
  exists ext, select_extremes tie_frame = Ok ext
    /\ first_max (regional_scores tie_frame) (best_region ext)
    /\ first_min (regional_scores tie_frame) (worst_region ext)
    /\ has_max (seasonal_scores tie_frame) (best_season ext)
    /\ has_min (seasonal_scores tie_frame) (worst_season ext)
    /\ ((2 <= List.length (seasonal_scores tie_frame))%nat ->
        best_season ext <> worst_season ext).
Proof.
  apply (extremes_tie_break tie_frame). discriminate.
Defined.

(** * Further properties of the derived columns *)

Lemma Qlt_div_iff (c x d : Q) : 0 < d -> (c < x / d <-> c * d < x).
Proof.
  intros Hd. rewrite <- (Qmult_lt_r _ _ d Hd).
  setoid_replace (x / d * d) with x; [reflexivity|].
  field. intros E. rewrite E in Hd. apply (Qlt_irrefl 0 Hd).
Qed.


Lemma Qle_div_iff (c x d : Q) : 0 < d -> (c <= x / d <-> c * d <= x).
Proof.
  intros Hd. rewrite <- (Qmult_le_r _ _ d Hd).
  setoid_replace (x / d * d) with x; [reflexivity|].
  field. intros E. rewrite E in Hd. apply (Qlt_irrefl 0 Hd).
Qed.

Lemma Qdiv_le_iff (c x d : Q) : 0 < d -> (x / d <= c <-> x <= c * d).
Proof.
  intros Hd. rewrite <- (Qmult_le_r _ _ d Hd).
  setoid_replace (x / d * d) with x; [reflexivity|].
  field. intros E. rewrite E in Hd. apply (Qlt_irrefl 0 Hd).
Qed.

Lemma inject_Z_pos (z : Z) : (0 < z)%Z -> 0 < inject_Z z.
Proof. intros H. q2z. Qed.

Lemma inject_Z_nonneg (z : Z) : (0 <= z)%Z -> 0 <= inject_Z z.
Proof. intros H. q2z. Qed.

Lemma turnover_of_stocked (s : retail_inventory) :
  (0 < inventory_level s)%Z ->
  sql_turnover_ratio s = sql_int_div (units_sold s) (inventory_level s).
Proof.
  intros H. unfold sql_turnover_ratio. apply Z.ltb_lt in H. now rewrite H.
Qed.

Lemma margin_with_sales (s : retail_inventory) :
  (0 < units_sold s)%Z -> 0 < price s ->
  sql_profit_margin s == discount_factor s.
Proof.
  intros Hu Hp. pose proof (inject_Z_pos _ Hu) as Hq.
  unfold sql_profit_margin. apply Z.ltb_lt in Hu. rewrite Hu.
  field. split; intros E.
  - rewrite E in Hp. apply (Qlt_irrefl 0 Hp).
  - rewrite E in Hq. apply (Qlt_irrefl 0 Hq).
Qed.

Lemma margin_without_sales (s : retail_inventory) :
  (units_sold s <= 0)%Z -> sql_profit_margin s = 0.
Proof.
  intros H. unfold sql_profit_margin.
  destruct (0 <? units_sold s)%Z eqn:E; [apply Z.ltb_lt in E; lia | reflexivity].
Qed.

Lemma discount_factor_range (s : retail_inventory) :
  (0 <= discount s <= 100)%Z -> 0 <= discount_factor s <= 1.
Proof.
  intros [H0 H100]. unfold discount_factor.
  assert (A : 0 <= inject_Z (discount s) / 100)
    by (apply Qle_div_iff; [reflexivity | q2z]).
  assert (B : inject_Z (discount s) / 100 <= 1)
    by (apply Qdiv_le_iff; [reflexivity | q2z]).
  split; lra.
Qed.

(** X1: on a loaded row the turnover ratio is the quotient
    [units_sold / inventory_level] to within half a unit of the fourth
    decimal; it lies in [0,1] when the sales do not exceed the stock; it is
    not clamped: it exceeds 1 exactly when [20000 * units_sold >= 20001 *
    inventory_level], it is at least 1 whenever [overstock_units] is
    negative, and [overstock_units] is negative whenever it exceeds 1. *)
Theorem turnover_ratio_range (db : list retail_inventory) (r : loaded_row) :
  In r (load_data db) ->
  let sold := units_sold (stored r) in
  let level := inventory_level (stored r) in
  Qabs (turnover_ratio r - inject_Z sold / inject_Z level) <= 1 # 20000
  /\ ((0 <= sold <= level)%Z -> 0 <= turnover_ratio r /\ turnover_ratio r <= 1)
  /\ (1 < turnover_ratio r <-> (20001 * level <= 20000 * sold)%Z)
  /\ ((overstock_units r < 0)%Z -> 1 <= turnover_ratio r)
  /\ (1 < turnover_ratio r -> (overstock_units r < 0)%Z).
Proof.
  intros H. apply in_load_data in H. destruct H as [s [-> [_ [Hl _]]]].
  simpl. rewrite (turnover_of_stocked s Hl).
  assert (Hgt : 1 < sql_int_div (units_sold s) (inventory_level s)
                <-> (20001 * inventory_level s <= 20000 * units_sold s)%Z).
  { destruct (Z.le_gt_cases 0 (units_sold s)) as [Hu | Hu].
    - pose proof (sql_int_div_le _ _ 10000 Hu Hl) as E.
      split.
      + intros H1. apply Z.nlt_ge. intros Hz.
        apply (Qlt_not_le _ _ H1).
        apply Qle_trans with (10000 # 10000); [|discriminate].
        apply E. lia.
      + intros Hz. apply Qnot_le_lt. intros H1.
        assert (H2 : sql_int_div (units_sold s) (inventory_level s)
                     <= 10000 # 10000)
          by (apply Qle_trans with 1; [exact H1 | discriminate]).
        apply E in H2. lia.
    - split; [|lia]. intros H1. exfalso.
      apply (Qlt_not_le _ _ H1). apply Qle_trans with 0; [|discriminate].
      apply sql_int_div_nonpos; lia. }
  split; [apply (sql_int_div_near _ _ Hl)|].
  split; [|split; [exact Hgt|split]].
  - intros [H0 H1]. split.
    + now apply sql_int_div_nonneg.
    + now apply sql_int_div_le_1.
  - intros Ho. apply Qnot_lt_le. intros H1.
    assert (H2 : sql_int_div (units_sold s) (inventory_level s) < 10000 # 10000)
      by (apply Qlt_le_trans with 1; [exact H1 | discriminate]).
    apply sql_int_div_lt in H2; lia.
  - intros H1. apply Hgt in H1. lia.
Qed.

Lemma turnover_ratio_range_witness :
  1 < turnover_ratio (select_row (stock_row "Toys" "North" "Winter" 10 25 50 0)).
Proof.
  apply (proj1 (proj2 (proj2 (turnover_ratio_range
                         [stock_row "Toys" "North" "Winter" 10 25 50 0] _
                         (or_introl eq_refl))))).
  simpl. lia.
Defined.

(** X2: on a loaded row with sales that are not negative and a discount
    between 0 and 100, the net revenue lies between 0 and the gross
    revenue. *)
Theorem net_revenue_within_gross (db : list retail_inventory) (r : loaded_row) :
  In r (load_data db) ->
  (0 <= units_sold (stored r))%Z ->
  (0 <= discount (stored r) <= 100)%Z ->
  0 <= net_revenue r /\ net_revenue r <= gross_revenue r.
Proof.
  intros H Hu Hd. apply in_load_data in H. destruct H as [s [-> [_ [_ Hp]]]].
  simpl in *. pose proof (inject_Z_nonneg _ Hu) as Hq.
  destruct (discount_factor_range s Hd) as [F0 F1].
  assert (G : 0 <= inject_Z (units_sold s) * price s)
    by (apply Qmult_le_0_compat; [exact Hq | now apply Qlt_le_weak]).
  split.
  - now apply Qmult_le_0_compat.
  - nra.
Qed.

Lemma net_revenue_within_gross_witness :
  let r := select_row (stock_row "Toys" "North" "Winter" 100 10 50 20) in
  0 <= net_revenue r /\ net_revenue r <= gross_revenue r.
Proof.
  apply (net_revenue_within_gross
           [stock_row "Toys" "North" "Winter" 100 10 50 20]).
  - left. reflexivity.
  - simpl. lia.
  - simpl. lia.
Defined.

(** X3: on a row of the analysis frame whose sales are between 0 and the
    stock and whose discount is between 0 and 100, the efficiency score lies
    between 0 and 100; without sales it is 0. *)
Theorem efficiency_score_range (db : list retail_inventory) (m : metric_row) :
  In m (analysis_frame db) ->
  (0 <= units_sold (stored (loaded m)) <= inventory_level (stored (loaded m)))%Z ->
  (0 <= discount (stored (loaded m)) <= 100)%Z ->
  0 <= efficiency_score m /\ efficiency_score m <= 100
  /\ (units_sold (stored (loaded m)) = 0%Z -> efficiency_score m == 0).
Proof.
  intros H Hu Hd. apply in_analysis_frame in H.
  destruct H as [s [-> [_ [Hl Hp]]]]. simpl in *.
  rewrite (turnover_of_stocked s Hl).
  set (t := sql_int_div (units_sold s) (inventory_level s)).
  assert (T0 : 0 <= t) by (apply sql_int_div_nonneg; lia).
  assert (T1 : t <= 1) by (apply sql_int_div_le_1; lia).
  destruct (discount_factor_range s Hd) as [F0 F1].
  destruct (Z.eq_dec (units_sold s) 0) as [E|E].
  - rewrite (margin_without_sales s) by lia.
    split; [lra|]. split; [lra | intros _; ring].
  - rewrite (margin_with_sales s) by (lia || assumption).
    split; [nra|]. split; [nra | intros; lia].
Qed.

Lemma efficiency_score_range_witness :
  let m := add_metrics (select_row (stock_row "Toys" "North" "Winter" 100 10 50 20)) in
  0 <= efficiency_score m /\ efficiency_score m <= 100
  /\ (units_sold (stored (loaded m)) = 0%Z -> efficiency_score m == 0).
Proof.
  apply (efficiency_score_range
           [stock_row "Toys" "North" "Winter" 100 10 50 20]).
  - left. reflexivity.
  - simpl. lia.
  - simpl. lia.
Defined.



(** * Categories and segments in terms of stock and sales *)

Lemma days_on_hand_le (level sold : Z) (c : Q) :
  (0 <= sold)%Z ->
  (days_on_hand level sold <= c
   <-> 30 * inject_Z level <= c * (inject_Z sold + (1 # 10))).
Proof.
  intros H. split; intros A; apply Qnot_lt_le; intros B.
  - apply (days_on_hand_gt level sold c H) in B. apply (Qlt_not_le _ _ B A).
  - apply (days_on_hand_gt level sold c H) in B. apply (Qlt_not_le _ _ B A).
Qed.

(** The category of a stocked row with sales that are not negative, by
    comparing the sales with the stock. *)
Lemma categorize_days_on_hand (level sold : Z) :
  (0 < level)%Z -> (0 <= sold)%Z ->
  categorize (days_on_hand level sold)
  = if (2 * level <=? sold)%Z then Some FastMoving
    else if (level <=? sold)%Z then Some Normal
    else if (level <=? 2 * sold)%Z then Some SlowMoving
    else Some DeadStock.
Proof.
  intros Hl Hs.
  destruct (categorize_bins (days_on_hand level sold)) as [_ [B1 [B2 [B3 B4]]]].
  pose proof (days_on_hand_gt level sold) as G.
  pose proof (days_on_hand_le level sold) as L.
  destruct (2 * level <=? sold)%Z eqn:E1;
    [apply Z.leb_le in E1 | apply Z.leb_gt in E1].
  { apply B1. split; [apply G | apply L]; try assumption; q2z. }
  destruct (level <=? sold)%Z eqn:E2;
    [apply Z.leb_le in E2 | apply Z.leb_gt in E2].
  { apply B2. split; [apply G | apply L]; try assumption; q2z. }
  destruct (level <=? 2 * sold)%Z eqn:E3;
    [apply Z.leb_le in E3 | apply Z.leb_gt in E3].
  { apply B3. split; [apply G | apply L]; try assumption; q2z. }
  apply B4. apply G; [assumption | q2z].
Qed.

(** X5: on the analysis frame, with sales that are not negative, the
    category is decided by the sales against the stock alone: Fast Moving
    when at least twice the stock was sold, Normal from once the stock up to
    twice, Slow Moving from half the stock up to the stock, and Dead Stock
    below half the stock. *)
Theorem category_by_sales_ratio (db : list retail_inventory) (m : metric_row) :
  In m (analysis_frame db) ->
  (0 <= units_sold (stored (loaded m)))%Z ->
  let sold := units_sold (stored (loaded m)) in
  let level := inventory_level (stored (loaded m)) in
  (inventory_category m = Some FastMoving <-> (2 * level <= sold)%Z)
  /\ (inventory_category m = Some Normal <-> (level <= sold < 2 * level)%Z)
  /\ (inventory_category m = Some SlowMoving <-> (sold < level <= 2 * sold)%Z)
  /\ (inventory_category m = Some DeadStock <-> (2 * sold < level)%Z).
Proof.
  intros H Hu. apply in_analysis_frame in H.
  destruct H as [s [-> [_ [Hl _]]]].
  change (units_sold (stored (loaded (add_metrics (select_row s)))))
    with (units_sold s) in *.
  change (inventory_level (stored (loaded (add_metrics (select_row s)))))
    with (inventory_level s).
  change (inventory_category (add_metrics (select_row s)))
    with (categorize (days_on_hand (inventory_level s) (units_sold s))).
  change (turnover_ratio (loaded (add_metrics (select_row s))))
    with (sql_turnover_ratio s).
  cbv zeta.
  rewrite (categorize_days_on_hand _ _ Hl Hu).
  destruct (2 * inventory_level s <=? units_sold s)%Z eqn:E1;
    [apply Z.leb_le in E1 | apply Z.leb_gt in E1];
  [|destruct (inventory_level s <=? units_sold s)%Z eqn:E2;
    [apply Z.leb_le in E2 | apply Z.leb_gt in E2];
   [|destruct (inventory_level s <=? 2 * units_sold s)%Z eqn:E3;
     [apply Z.leb_le in E3 | apply Z.leb_gt in E3]]];
  (split; [|split; [|split]]); split; intros A;
    try discriminate A; try reflexivity; lia.
Qed.

Lemma category_by_sales_ratio_witness :
  let m := add_metrics (select_row (stock_row "Toys" "North" "Winter" 100 60 50 0)) in
  inventory_category m = Some SlowMoving.
Proof.
  intros m.
  apply (proj1 (proj2 (proj2 (category_by_sales_ratio
           [stock_row "Toys" "North" "Winter" 100 60 50 0] m
           (or_introl eq_refl) ltac:(simpl; lia))))).
  simpl. lia.
Defined.

Lemma turnover_below_3_tenths (s : retail_inventory) :
  (0 < inventory_level s)%Z -> (0 <= units_sold s)%Z ->
  (sql_turnover_ratio s < 3 # 10
   <-> (20000 * units_sold s < 5999 * inventory_level s)%Z).
Proof.
  intros Hl Hu. rewrite (turnover_of_stocked s Hl).
  setoid_replace (3 # 10) with (3000 # 10000) by reflexivity.
  now rewrite (sql_int_div_lt _ _ 3000 Hu Hl).
Qed.

Lemma is_slow_moving_iff (s : retail_inventory) :
  (0 < inventory_level s)%Z -> (0 <= units_sold s)%Z ->
  (is_slow_moving (add_metrics (select_row s)) = true
   <-> (20000 * units_sold s < 5999 * inventory_level s)%Z).
Proof.
  intros Hl Hu. unfold is_slow_moving.
  change (inventory_days (add_metrics (select_row s)))
    with (days_on_hand (inventory_level s) (units_sold s)).
  change (turnover_ratio (loaded (add_metrics (select_row s))))
    with (sql_turnover_ratio s).
  rewrite andb_true_iff, !Qlt_bool_iff.
  rewrite (days_on_hand_gt _ _ _ Hu), (turnover_below_3_tenths s Hl Hu).
  split; [intros [_ A]; exact A | intros A; split; [q2z | exact A]].
Qed.

Lemma is_dead_stock_iff (s : retail_inventory) :
  (0 < inventory_level s)%Z -> (0 <= units_sold s)%Z ->
  (is_dead_stock (add_metrics (select_row s)) = true
   <-> units_sold s = 0%Z \/ (units_sold s = 1%Z /\ (4 <= inventory_level s)%Z)).
Proof.
  intros Hl Hu. unfold is_dead_stock.
  change (inventory_days (add_metrics (select_row s)))
    with (days_on_hand (inventory_level s) (units_sold s)).
  change (units_sold (stored (loaded (add_metrics (select_row s)))))
    with (units_sold s).
  rewrite andb_true_iff, Qlt_bool_iff, Z.leb_le.
  rewrite (days_on_hand_gt _ _ _ Hu).
  split.
  - intros [A B]. assert (C : units_sold s = 0%Z \/ units_sold s = 1%Z) by lia.
    destruct C as [C|C]; [now left | right]. split; [exact C|].
    rewrite C in A. q2z.
  - intros [A|[A B]]; rewrite A; split; try lia; q2z.
Qed.

(** X6: on the analysis frame, with sales that are not negative, a row is
    slow-moving exactly when its turnover ratio is below 0.3 (the test on
    the days on hand adds nothing), which with the ratio rounded to four
    decimals is [20000 * units_sold < 5999 * inventory_level]; and it is
    dead stock exactly when nothing was sold, or one unit was sold out of a
    stock of at least 4. *)
Theorem segments_by_stock_and_sales (db : list retail_inventory) (m : metric_row) :
  In m (analysis_frame db) ->
  (0 <= units_sold (stored (loaded m)))%Z ->
  let sold := units_sold (stored (loaded m)) in
  let level := inventory_level (stored (loaded m)) in
  (is_slow_moving m = true <-> turnover_ratio (loaded m) < 3 # 10)
  /\ (is_slow_moving m = true <-> (20000 * sold < 5999 * level)%Z)
  /\ (is_dead_stock m = true
      <-> sold = 0%Z \/ (sold = 1%Z /\ (4 <= level)%Z)).
Proof.
  intros H Hu. apply in_analysis_frame in H.
  destruct H as [s [-> [_ [Hl _]]]].
  change (units_sold (stored (loaded (add_metrics (select_row s)))))
    with (units_sold s) in *.
  change (inventory_level (stored (loaded (add_metrics (select_row s)))))
    with (inventory_level s).
  change (turnover_ratio (loaded (add_metrics (select_row s))))
    with (sql_turnover_ratio s).
  cbv zeta.
  split; [|split].
  - now rewrite (is_slow_moving_iff s Hl Hu), (turnover_below_3_tenths s Hl Hu).
  - apply (is_slow_moving_iff s Hl Hu).
  - apply (is_dead_stock_iff s Hl Hu).
Qed.

Lemma segments_by_stock_and_sales_witness :
  let m := add_metrics (select_row (stock_row "Toys" "North" "Winter" 100 29 50 0)) in
  is_slow_moving m = true.
Proof.
  intros m.
  apply (proj1 (proj2 (segments_by_stock_and_sales
           [stock_row "Toys" "North" "Winter" 100 29 50 0] m
           (or_introl eq_refl) ltac:(simpl; lia)))).
  simpl. lia.
Defined.

(** X7: on the analysis frame, with sales that are not negative, every row
    of the slow-moving segment and every row of the dead-stock segment has
    the category Dead Stock; a row of category Slow Moving is in neither
    segment. *)
Theorem problem_rows_are_dead_stock (db : list retail_inventory) :
  Forall (fun s => (0 <= units_sold s)%Z) db ->
  let areas := problem_segments (analysis_frame db) in
  Forall (fun m => inventory_category m = Some DeadStock) (slow_moving areas)
  /\ Forall (fun m => inventory_category m = Some DeadStock) (dead_stock areas)
  /\ forall m, In m (analysis_frame db) ->
       inventory_category m = Some SlowMoving ->
       ~ In m (slow_moving areas) /\ ~ In m (dead_stock areas).
Proof.
  intros Hdb. rewrite Forall_forall in Hdb. simpl.
  assert (Hslow : forall m, In m (analysis_frame db) ->
            is_slow_moving m = true -> inventory_category m = Some DeadStock).
  { intros m Hm A. apply in_analysis_frame in Hm.
    destruct Hm as [s [-> [Hs [Hl _]]]]. pose proof (Hdb s Hs) as Hu.
    apply (is_slow_moving_iff s Hl Hu) in A. simpl.
    rewrite (categorize_days_on_hand _ _ Hl Hu).
    destruct (2 * inventory_level s <=? units_sold s)%Z eqn:E1;
      [apply Z.leb_le in E1; lia|].
    destruct (inventory_level s <=? units_sold s)%Z eqn:E2;
      [apply Z.leb_le in E2; lia|].
    destruct (inventory_level s <=? 2 * units_sold s)%Z eqn:E3;
      [apply Z.leb_le in E3; lia | reflexivity]. }
  assert (Hdead : forall m, In m (analysis_frame db) ->
            is_dead_stock m = true -> is_slow_moving m = true).
  { intros m Hm A. apply in_analysis_frame in Hm.
    destruct Hm as [s [-> [Hs [Hl _]]]]. pose proof (Hdb s Hs) as Hu.
    apply (is_dead_stock_iff s Hl Hu) in A.
    apply (is_slow_moving_iff s Hl Hu). lia. }
  split; [|split].
  - apply Forall_forall. intros m Hm. apply filter_In in Hm.
    destruct Hm as [Hm A]. now apply Hslow.
  - apply Forall_forall. intros m Hm. apply filter_In in Hm.
    destruct Hm as [Hm A]. apply Hslow; [exact Hm | now apply Hdead].
  - intros m Hm Hc. split; intros Hin; apply filter_In in Hin;
      destruct Hin as [_ A].
    + rewrite (Hslow m Hm A) in Hc. discriminate.
    + rewrite (Hslow m Hm (Hdead m Hm A)) in Hc. discriminate.
Qed.

Lemma problem_rows_are_dead_stock_witness :
  let areas := problem_segments (analysis_frame
                 [stock_row "Toys" "North" "Winter" 100 29 50 0;
                  stock_row "Toys" "South" "Summer" 100 60 10 5]) in
  Forall (fun m => inventory_category m = Some DeadStock) (slow_moving areas).
Proof.
  apply (problem_rows_are_dead_stock
           [stock_row "Toys" "North" "Winter" 100 29 50 0;
            stock_row "Toys" "South" "Summer" 100 60 10 5]).
  repeat constructor; simpl; lia.
Defined.

(** * Quantiles, the Overstocked segment and the executive summary *)

Section SortFacts.
Context {A : Type} (leb : A -> A -> bool).

Lemma insert_permutation (x : A) (l : list A) :
  Permutation (insert leb x l) (x :: l).
Proof.
  induction l as [|y l IH]; simpl; [apply Permutation_refl|].
  destruct (leb x y); [apply Permutation_refl|].
  apply Permutation_trans with (y :: x :: l);
    [now constructor | apply perm_swap].
Qed.

Lemma sort_permutation (l : list A) : Permutation (stable_sort leb l) l.
Proof.
  induction l as [|x l IH]; simpl; [constructor|].
  apply Permutation_trans with (x :: stable_sort leb l);
    [apply insert_permutation | now constructor].
Qed.

Hypothesis leb_total : forall x y, leb x y = false -> leb y x = true.
Hypothesis leb_trans : forall x y z, leb x y = true -> leb y z = true -> leb x z = true.

Local Abbreviation le := (fun x y => leb x y = true).

Lemma insert_sorted (x : A) (l : list A) :
  StronglySorted le l -> StronglySorted le (insert leb x l).
Proof.
  induction 1 as [|y l Hs IH Hall]; simpl.
  - repeat constructor.
  - destruct (leb x y) eqn:E.
    + constructor; [now constructor|]. constructor; [exact E|].
      eapply Forall_impl; [|exact Hall]. intros z Hz. simpl in *.
      now apply leb_trans with y.
    + constructor; [exact IH|].
      apply (Permutation_Forall (Permutation_sym (insert_permutation x l))).
      constructor; [now apply leb_total | exact Hall].
Qed.

Lemma sort_sorted (l : list A) : StronglySorted le (stable_sort leb l).
Proof.
  induction l as [|x l IH]; simpl; [constructor | now apply insert_sorted].
Qed.
End SortFacts.

Lemma Qsort_sorted (l : list Q) : StronglySorted Qle (stable_sort Qle_bool l).
Proof.
  assert (H : StronglySorted (fun x y => Qle_bool x y = true)
                (stable_sort Qle_bool l)).
  { apply sort_sorted.
    - apply Qle_bool_total.
    - intros x y z H1 H2. apply Qle_bool_iff in H1, H2. apply Qle_bool_iff.
      now apply Qle_trans with y. }
  induction H as [|x s Hs IH Hall]; constructor; [exact IH|].
  eapply Forall_impl; [|exact Hall]. intros y Hy. now apply Qle_bool_iff.
Qed.

Lemma sorted_nth_le (s : list Q) (d : Q) (i j : nat) :
  StronglySorted Qle s -> (i <= j < List.length s)%nat ->
  nth i s d <= nth j s d.
Proof.
  intros H. revert i j. induction H as [|x s Hs IH Hall]; intros i j [Hij Hj].
  - simpl in Hj. lia.
  - destruct i as [|i], j as [|j]; simpl in *; try lia.
    + apply Qle_refl.
    + rewrite Forall_forall in Hall. apply Hall. apply nth_In. lia.
    + apply IH. lia.
Qed.

Lemma nth_head_default_in (x : Q) (s : list Q) (i : nat) :
  In (nth i (x :: s) x) (x :: s).
Proof.
  destruct (Nat.lt_ge_cases i (List.length (x :: s))) as [H|H].
  - now apply nth_In.
  - rewrite nth_overflow by exact H. now left.
Qed.

Lemma Qfrac_range (x : Q) :
  0 <= x - inject_Z (Qfloor x) /\ x - inject_Z (Qfloor x) < 1.
Proof.
  pose proof (Qfloor_le x) as H1. pose proof (Qlt_floor x) as H2.
  rewrite inject_Z_plus in H2. change (inject_Z 1) with 1 in H2. split; lra.
Qed.

(** A quantile lies between two values of the column. *)
Lemma quantile_between (q : Q) (col : list Q) (t : Q) :
  quantile q col = Some t ->
  (exists x, In x col /\ x <= t) /\ (exists y, In y col /\ t <= y).
Proof.
  unfold quantile. pose proof (sort_permutation Qle_bool col) as P.
  destruct (stable_sort Qle_bool col) as [|v s]; [discriminate|].
  cbv zeta.
  set (pos := q * inject_Z (Z.of_nat (List.length (v :: s)) - 1)).
  set (a := nth (Z.to_nat (Qfloor pos)) (v :: s) v).
  set (b := nth (Nat.min (S (Z.to_nat (Qfloor pos))) (List.length (v :: s) - 1))
                (v :: s) v).
  assert (Ha : In a col)
    by (apply (Permutation_in _ P); apply nth_head_default_in).
  assert (Hb : In b col)
    by (apply (Permutation_in _ P); apply nth_head_default_in).
  destruct (Qfrac_range pos) as [F0 F1].
  set (f := pos - inject_Z (Qfloor pos)) in *.
  clearbody a b f. clear P pos.
  intros H. injection H as <-.
  destruct (Qlt_le_dec b a) as [C|C].
  - assert (0 <= (a - b) * f) by (apply Qmult_le_0_compat; lra).
    assert (0 <= (a - b) * (1 - f)) by (apply Qmult_le_0_compat; lra).
    split; [exists b | exists a]; (split; [assumption | lra]).
  - assert (0 <= (b - a) * f) by (apply Qmult_le_0_compat; lra).
    assert (0 <= (b - a) * (1 - f)) by (apply Qmult_le_0_compat; lra).
    split; [exists a | exists b]; (split; [assumption | lra]).
Qed.

(** X8: a row whose [overstock_units] is the least of the table, or whose
    efficiency score is the greatest, is never Overstocked; so the
    Overstocked segment of a table with rows is always shorter than the
    table. *)
Theorem overstocked_never_all (df : list metric_row) :
  (forall m,
     Forall (fun r => overstock_col m <= overstock_col r) df
     \/ Forall (fun r => efficiency_score r <= efficiency_score m) df ->
     is_overstocked df m = false)
  /\ (df <> [] ->
      (List.length (overstocked (problem_segments df)) < List.length df)%nat).
Proof.
  assert (Hrow : forall m,
     Forall (fun r => overstock_col m <= overstock_col r) df
     \/ Forall (fun r => efficiency_score r <= efficiency_score m) df ->
     is_overstocked df m = false).
  { intros m [H|H]; unfold is_overstocked; apply andb_false_iff; [left | right].
    - destruct (quantile (8 # 10) (map overstock_col df)) as [t|] eqn:E;
        [|reflexivity]. simpl. apply Qlt_bool_false_iff.
      destruct (proj1 (quantile_between _ _ _ E)) as [x [Hx Hle]].
      apply in_map_iff in Hx. destruct Hx as [r [<- Hr]].
      rewrite Forall_forall in H. apply Qle_trans with (overstock_col r); auto.
    - destruct (quantile (3 # 10) (map efficiency_score df)) as [t|] eqn:E;
        [|reflexivity]. simpl. apply Qlt_bool_false_iff.
      destruct (proj2 (quantile_between _ _ _ E)) as [y [Hy Hle]].
      apply in_map_iff in Hy. destruct Hy as [r [<- Hr]].
      rewrite Forall_forall in H. apply Qle_trans with (efficiency_score r); auto. }
  split; [exact Hrow|]. intros Hne.
  assert (Hmin : exists m, In m df
            /\ Forall (fun r => overstock_col m <= overstock_col r) df).
  { clear Hrow. induction df as [|a l IH]; [congruence|].
    destruct l as [|b l].
    - exists a. split; [now left|]. constructor; [apply Qle_refl | constructor].
    - destruct IH as [m [Hm Hall]]; [discriminate|].
      destruct (Qlt_le_dec (overstock_col a) (overstock_col m)) as [C|C].
      + exists a. split; [now left|]. constructor; [apply Qle_refl|].
        eapply Forall_impl; [|exact Hall]. intros r Hr. simpl in *.
        apply Qlt_le_weak. now apply Qlt_le_trans with (overstock_col m).
      + exists m. split; [now right|]. constructor; assumption. }
  destruct Hmin as [m [Hm Hall]]. simpl.
  pose proof (Hrow m (or_introl Hall)) as Hf.
  clear Hrow Hall Hne. generalize dependent (is_overstocked df). intros f Hf.
  induction df as [|a l IH]; [destruct Hm|]. simpl.
  destruct Hm as [->|Hm].
  - rewrite Hf. pose proof (filter_length_le f l). lia.
  - specialize (IH Hm). destruct (f a); simpl; lia.
Qed.

Lemma overstocked_never_all_witness :
  let a := add_metrics (select_row (stock_row "Toys" "North" "Winter" 100 10 50 0)) in
  (List.length (overstocked (problem_segments [a])) < 1)%nat.
Proof.
  intros a. apply (proj2 (overstocked_never_all [a])). discriminate.
Defined.

(** The interpolation of a sorted column grows with the position. *)
Lemma interpolation_mono (s : list Q) (d p1 p2 : Q) :
  StronglySorted Qle s ->
  0 <= p1 -> p1 <= p2 -> p2 <= inject_Z (Z.of_nat (List.length s) - 1) ->
  nth (Z.to_nat (Qfloor p1)) s d
  + (nth (Nat.min (S (Z.to_nat (Qfloor p1))) (List.length s - 1)) s d
     - nth (Z.to_nat (Qfloor p1)) s d) * (p1 - inject_Z (Qfloor p1))
  <= nth (Z.to_nat (Qfloor p2)) s d
     + (nth (Nat.min (S (Z.to_nat (Qfloor p2))) (List.length s - 1)) s d
        - nth (Z.to_nat (Qfloor p2)) s d) * (p2 - inject_Z (Qfloor p2)).
Proof.
  intros Hs H0 H12 Hn.
  assert (F1 : (0 <= Qfloor p1)%Z).
  { change 0%Z with (Qfloor 0). now apply Qfloor_resp_le. }
  assert (F12 : (Qfloor p1 <= Qfloor p2)%Z) by now apply Qfloor_resp_le.
  assert (F2 : (Qfloor p2 <= Z.of_nat (List.length s) - 1)%Z).
  { rewrite <- (Qfloor_Z (Z.of_nat (List.length s) - 1)).
    now apply Qfloor_resp_le. }
  destruct (Qfrac_range p1) as [A1 B1]. destruct (Qfrac_range p2) as [A2 B2].
  set (n := List.length s) in *.
  set (lo1 := Z.to_nat (Qfloor p1)). set (lo2 := Z.to_nat (Qfloor p2)).
  assert (L1 : (lo1 <= lo2)%nat) by (unfold lo1, lo2; lia).
  assert (L2 : (lo2 < n)%nat) by (unfold lo2; lia).
  set (hi1 := Nat.min (S lo1) (n - 1)). set (hi2 := Nat.min (S lo2) (n - 1)).
  assert (S1 : nth lo1 s d <= nth hi1 s d)
    by (apply sorted_nth_le; [exact Hs | unfold hi1; fold n; lia]).
  assert (S2 : nth lo2 s d <= nth hi2 s d)
    by (apply sorted_nth_le; [exact Hs | unfold hi2; fold n; lia]).
  destruct (Z.eq_dec (Qfloor p1) (Qfloor p2)) as [E|E].
  - assert (lo1 = lo2) as -> by (unfold lo1, lo2; now rewrite E).
    rewrite E.
    set (a := nth lo2 s d) in *. set (b := nth hi2 s d) in *.
    change (nth hi1 s d) with b in *.
    set (f := inject_Z (Qfloor p2)) in *.
    assert (0 <= (b - a) * (p2 - p1)) by (apply Qmult_le_0_compat; lra).
    rewrite E in A1, B1. fold f in A1, B1. clearbody a b f. lra.
  - assert (L3 : (S lo1 <= lo2)%nat) by (unfold lo1, lo2; lia).
    assert (S3 : nth hi1 s d <= nth lo2 s d)
      by (apply sorted_nth_le; [exact Hs | unfold hi1; fold n; lia]).
    set (a1 := nth lo1 s d) in *. set (b1 := nth hi1 s d) in *.
    set (a2 := nth lo2 s d) in *. set (b2 := nth hi2 s d) in *.
    set (f1 := p1 - inject_Z (Qfloor p1)) in *.
    set (f2 := p2 - inject_Z (Qfloor p2)) in *.
    assert (0 <= (b1 - a1) * (1 - f1)) by (apply Qmult_le_0_compat; lra).
    assert (0 <= (b2 - a2) * f2) by (apply Qmult_le_0_compat; lra).
    clearbody a1 b1 a2 b2 f1 f2. lra.
Qed.

(** A lower quantile is not above a higher one. *)
Lemma quantile_mono (q1 q2 : Q) (col : list Q) (t1 t2 : Q) :
  0 <= q1 -> q1 <= q2 -> q2 <= 1 ->
  quantile q1 col = Some t1 -> quantile q2 col = Some t2 -> t1 <= t2.
Proof.
  intros H0 H12 H1. unfold quantile.
  pose proof (Qsort_sorted col) as Hs.
  destruct (stable_sort Qle_bool col) as [|v s]; [discriminate|].
  cbv zeta. intros E1 E2.
  assert (N : 0 <= inject_Z (Z.of_nat (List.length (v :: s)) - 1))
    by (simpl List.length; q2z).
  pose proof (interpolation_mono (v :: s) v
                (q1 * inject_Z (Z.of_nat (List.length (v :: s)) - 1))
                (q2 * inject_Z (Z.of_nat (List.length (v :: s)) - 1)) Hs) as M.
  set (K := inject_Z (Z.of_nat (List.length (v :: s)) - 1)) in *.
  assert (P0 : 0 <= q1 * K) by (apply Qmult_le_0_compat; assumption).
  assert (P1 : q1 * K <= q2 * K) by (apply Qmult_le_compat_r; assumption).
  assert (P2 : q2 * K <= K).
  { setoid_replace K with (1 * K) at 2 by ring.
    apply Qmult_le_compat_r; assumption. }
  specialize (M P0 P1 P2).
  injection E1 as E1. injection E2 as E2. rewrite <- E1, <- E2. exact M.
Qed.

(** X9: [generate_executive_summary] raises ZeroDivisionError exactly on a
    frame without rows (the share of high-efficiency products divides by the
    number of rows); without a frame it returns nothing, and on a frame with
    rows it returns its figures. *)
Theorem executive_summary_fails_iff_empty (self_df : option (list metric_row)) :
  generate_executive_summary self_df = ZeroDivisionError <-> self_df = Some [].
Proof.
  split.
  - destruct self_df as [[|m df]|]; [reflexivity | | discriminate].
    unfold generate_executive_summary, executive_summary_of, share_of.
    cbv zeta. simpl List.length. discriminate.
  - intros ->. reflexivity.
Qed.

Lemma filter_disjoint_length {A : Type} (f g : A -> bool) (l : list A) :
  (forall x, In x l -> f x && g x = false) ->
  (List.length (filter f l) + List.length (filter g l) <= List.length l)%nat.
Proof.
  induction l as [|a l IH]; intros H; simpl; [lia|].
  assert (Ha := H a (or_introl eq_refl)).
  assert (IH' := IH (fun x Hx => H x (or_intror Hx))).
  destruct (f a), (g a); simpl in *; try discriminate; lia.
Qed.

(** X10: no product is counted both as high-efficiency (above the 80%
    quantile) and as low-efficiency (below the 20% quantile): the two counts
    together never exceed the number of rows. *)
Theorem efficiency_counts_disjoint (df : list metric_row) :
  (count_high_efficiency df + count_low_efficiency df <= List.length df)%nat.
Proof.
  unfold count_high_efficiency, count_low_efficiency.
  apply filter_disjoint_length. intros m _.
  destruct (quantile (8 # 10) (map efficiency_score df)) as [t8|] eqn:E8;
    [|reflexivity].
  destruct (quantile (2 # 10) (map efficiency_score df)) as [t2|] eqn:E2;
    [|apply andb_false_r].
  assert (H : t2 <= t8).
  { apply (quantile_mono (2 # 10) (8 # 10) _ _ _) with (4 := E2) (5 := E8);
      unfold Qle; simpl; lia. }
  simpl. destruct (Qlt_bool t8 (efficiency_score m)) eqn:A; [|reflexivity].
  apply Qlt_bool_iff in A. simpl. apply Qlt_bool_false_iff. lra.
Qed.

Lemma StronglySorted_snoc {A : Type} (R : A -> A -> Prop) (l : list A) (x : A) :
  StronglySorted R l -> Forall (fun y => R y x) l -> StronglySorted R (l ++ [x]).
Proof.
  induction 1 as [|a l Hs IH Hall]; intros H; simpl.
  - repeat constructor.
  - inversion H as [|? ? Hax Hl]. subst. constructor; [now apply IH|].
    apply Forall_app. split; [exact Hall | now constructor].
Qed.

Lemma StronglySorted_rev {A : Type} (R : A -> A -> Prop) (l : list A) :
  StronglySorted R l -> StronglySorted (fun a b => R b a) (rev l).
Proof.
  induction 1 as [|a l Hs IH Hall]; simpl; [constructor|].
  apply StronglySorted_snoc; [exact IH|]. now apply Forall_rev.
Qed.

Lemma StronglySorted_app_inv {A : Type} (R : A -> A -> Prop) (l1 l2 : list A) :
  StronglySorted R (l1 ++ l2) ->
  StronglySorted R l1 /\ forall x y, In x l1 -> In y l2 -> R x y.
Proof.
  induction l1 as [|a l1 IH]; simpl; intros H.
  - split; [constructor | intros x y []].
  - inversion H as [|? ? Hs Hall]. subst. destruct (IH Hs) as [H1 H2].
    split.
    + constructor; [exact H1|]. apply Forall_app in Hall. tauto.
    + intros x y [<-|Hx] Hy; [|now apply H2].
      rewrite Forall_forall in Hall. apply Hall, in_or_app. now right.
Qed.

Lemma StronglySorted_impl {A : Type} (R R' : A -> A -> Prop) (l : list A) :
  (forall a b, R a b -> R' a b) -> StronglySorted R l -> StronglySorted R' l.
Proof.
  intros H. induction 1 as [|x l Hs IH Hall]; constructor; [exact IH|].
  eapply Forall_impl; [|exact Hall]. intros y. apply H.
Qed.

(** The table sorted by descending score is in descending order. *)
Lemma sort_values_desc_sorted {K : Type} (s : list (K * Q)) :
  StronglySorted (fun a b => snd b <= snd a) (sort_values_desc s).
Proof.
  unfold sort_values_desc. apply StronglySorted_rev.
  assert (H : StronglySorted (fun a b : K * Q => by_value a b = true)
                (stable_sort by_value (rev s))).
  { apply sort_sorted; unfold by_value.
    - intros x y. apply Qle_bool_total.
    - intros x y z H1 H2. apply Qle_bool_iff in H1, H2. apply Qle_bool_iff.
      now apply Qle_trans with (snd y). }
  induction H as [|x l Hs IH Hall]; constructor; [exact IH|].
  eapply Forall_impl; [|exact Hall]. intros y Hy. now apply Qle_bool_iff.
Qed.

(** X11: the top categories of the executive summary are at most three
    rows of the revenue-per-category table, in descending order of revenue,
    and no category left out has a greater revenue than one that is
    listed. *)
Theorem top_categories_are_the_greatest (df : list metric_row)
    (s : executive_summary) :
  executive_summary_of df = Computed s ->
  List.length (top_categories s)
    = Nat.min 3 (List.length (category_revenue df))
  /\ StronglySorted (fun a b => snd b <= snd a) (top_categories s)
  /\ (forall p, In p (top_categories s) -> In p (category_revenue df))
  /\ (forall p q, In p (top_categories s) ->
        In q (category_revenue df) -> ~ In q (top_categories s) ->
        snd q <= snd p).
Proof.
  unfold executive_summary_of. cbv zeta.
  destruct (share_of _ _) as [hs|]; [|discriminate].
  destruct (share_of _ _) as [ls|]; [|discriminate].
  intros H.
  apply (f_equal (fun r => match r with
                           | Computed x => top_categories x
                           | ZeroDivisionError => []
                           end)) in H.
  cbn [top_categories] in H. rewrite <- H. clear H.
  set (sorted := sort_values_desc (category_revenue df)).
  pose proof (sort_values_desc_perm (category_revenue df)) as P. fold sorted in P.
  pose proof (sort_values_desc_sorted (category_revenue df)) as S. fold sorted in S.
  rewrite <- (firstn_skipn 3 sorted) in S.
  apply StronglySorted_app_inv in S. destruct S as [S1 S2].
  split; [|split; [exact S1 | split]].
  - rewrite length_firstn, (Permutation_length P). reflexivity.
  - intros p Hp. apply (Permutation_in _ P).
    rewrite <- (firstn_skipn 3 sorted). apply in_or_app. now left.
  - intros p q Hp Hq Hnot. apply (S2 p q Hp).
    apply (Permutation_in _ (Permutation_sym P)) in Hq.
    rewrite <- (firstn_skipn 3 sorted) in Hq. apply in_app_or in Hq.
    destruct Hq as [Hq|Hq]; [contradiction | exact Hq].
Qed.

Lemma top_categories_are_the_greatest_witness :
  exists s, executive_summary_of tie_frame = Computed s
    /\ List.length (top_categories s) = 1%nat.
Proof.
  destruct (executive_summary_of tie_frame) as [s|] eqn:E;
    [|vm_compute in E; discriminate E].
  exists s. split; [reflexivity|].
  rewrite (proj1 (top_categories_are_the_greatest tie_frame s E)).
  reflexivity.
Defined.

(** * Grouped tables *)

Section GroupInvariants.
Context {R : Type} (key : R -> string).

(** A well-formed group: it has a row, and its rows carry its key. *)
Local Abbreviation well_formed :=
  (fun g : string * list R => snd g <> [] /\ Forall (fun r => key r = fst g) (snd g)).

Lemma add_to_group_well_formed (r : R) (gs : list (string * list R)) :
  Forall well_formed gs ->
  Forall well_formed (add_to_group String.compare (key r) r gs).
Proof.
  induction 1 as [|[k rs] gs [Hne Hk] Hgs IH]; simpl.
  - constructor; [|constructor]. simpl. split; [discriminate | now constructor].
  - destruct (String.compare (key r) k) eqn:E.
    + apply String.compare_eq_iff in E. constructor; [|exact Hgs]. simpl in *.
      split; [destruct rs; discriminate|].
      apply Forall_app. split; [exact Hk | now constructor].
    + constructor; [|now constructor]. simpl.
      split; [discriminate | now constructor].
    + constructor; [now split | exact IH].
Qed.

Lemma add_to_group_rows (r : R) (gs : list (string * list R)) :
  Permutation (List.concat (map snd (add_to_group String.compare (key r) r gs)))
              (r :: List.concat (map snd gs)).
Proof.
  induction gs as [|[k rs] gs IH]; simpl; [apply Permutation_refl|].
  destruct (String.compare (key r) k); simpl.
  - rewrite <- app_assoc. simpl. apply Permutation_sym, Permutation_middle.
  - apply Permutation_refl.
  - apply Permutation_trans with (rs ++ r :: List.concat (map snd gs));
      [now apply Permutation_app_head | apply Permutation_sym, Permutation_middle].
Qed.

Lemma fold_groups_invariants (df : list R) (gs : list (string * list R)) :
  Forall well_formed gs ->
  let out := fold_left (fun gs r => add_to_group String.compare (key r) r gs) df gs in
  Forall well_formed out
  /\ Permutation (List.concat (map snd out)) (List.concat (map snd gs) ++ df).
Proof.
  revert gs. induction df as [|r df IH]; intros gs H; simpl.
  - split; [exact H | rewrite app_nil_r; apply Permutation_refl].
  - destruct (IH _ (add_to_group_well_formed r gs H)) as [H1 H2].
    split; [exact H1|].
    apply (Permutation_trans H2).
    apply Permutation_trans with ((r :: List.concat (map snd gs)) ++ df);
      [apply Permutation_app_tail, add_to_group_rows|].
    simpl. apply Permutation_middle.
Qed.
End GroupInvariants.

Lemma string_groupby_invariants {R : Type} (key : R -> string) (df : list R) :
  let gs := groupby String.compare key df in
  StronglySorted (fun a b => String.compare (fst a) (fst b) = Lt) gs
  /\ NoDup (map fst gs)
  /\ Forall (fun g => snd g <> [] /\ Forall (fun r => key r = fst g) (snd g)) gs
  /\ Permutation (List.concat (map snd gs)) df.
Proof.
  assert (Hrefl : forall k, String.compare k k = Eq)
    by (intros k; now apply OrderedTypeEx.String_as_OT.cmp_eq).
  assert (Hgt : forall a b, String.compare a b = Gt -> String.compare b a = Lt).
  { intros a b H. rewrite String.compare_antisym in H.
    destruct (String.compare b a); simpl in H; congruence. }
  assert (Htr : forall a b c, String.compare a b = Lt ->
                  String.compare b c = Lt -> String.compare a c = Lt).
  { intros a b c H1 H2.
    apply OrderedTypeEx.String_as_OT.cmp_lt in H1, H2.
    apply OrderedTypeEx.String_as_OT.cmp_lt.
    now apply OrderedTypeEx.String_as_OT.lt_trans with b. }
  cbv zeta. split; [|split; [|split]].
  - now apply groupby_sorted.
  - now apply groupby_keys_nodup.
  - apply (fold_groups_invariants key df []). constructor.
  - apply (fold_groups_invariants key df []). constructor.
Qed.

(** X12: grouping a frame by a string key gives one group per key that
    occurs: the keys come in strictly ascending order (so no key twice),
    every group has at least one row and holds only rows with its key, and
    the groups together hold exactly the rows of the frame. *)
Theorem groupby_partitions_frame {R : Type} (key : R -> string) (df : list R) :
  let gs := groupby String.compare key df in
  StronglySorted (fun a b => String.compare (fst a) (fst b) = Lt) gs
  /\ NoDup (map fst gs)
  /\ Forall (fun g => snd g <> [] /\ Forall (fun r => key r = fst g) (snd g)) gs
  /\ Permutation (List.concat (map snd gs)) df.
Proof.
  exact (string_groupby_invariants key df).
Qed.

Lemma length_concat_groups {K R V : Type} (gs : list (K * list R))
    (f : list R -> V) (count : V -> nat) :
  (forall rows, count (f rows) = List.length rows) ->
  list_sum (map (fun g => count (snd g)) (agg f gs))
  = List.length (List.concat (map snd gs)).
Proof.
  intros H. unfold agg. induction gs as [|[k rs] gs IH]; simpl; [reflexivity|].
  now rewrite length_app, H, IH.
Qed.

Lemma sort_rows_desc_perm {A : Type} (score : A -> Q) (rows : list A) :
  Permutation (sort_rows_desc score rows) rows.
Proof.
  unfold sort_rows_desc.
  apply Permutation_trans
    with (stable_sort (fun a b => Qle_bool (score a) (score b)) (rev rows));
    [apply Permutation_sym, Permutation_rev|].
  apply Permutation_trans with (rev rows);
    [apply sort_permutation | apply Permutation_sym, Permutation_rev].
Qed.

Lemma sort_rows_desc_sorted {A : Type} (score : A -> Q) (rows : list A) :
  StronglySorted (fun a b => score b <= score a) (sort_rows_desc score rows).
Proof.
  unfold sort_rows_desc. apply StronglySorted_rev.
  assert (H : StronglySorted
                (fun a b : A => Qle_bool (score a) (score b) = true)
                (stable_sort (fun a b => Qle_bool (score a) (score b)) (rev rows))).
  { apply (sort_sorted (fun a b => Qle_bool (score a) (score b))).
    - intros x y. apply Qle_bool_total.
    - intros x y z H1 H2. apply Qle_bool_iff in H1, H2. apply Qle_bool_iff.
      now apply Qle_trans with (score y). }
  induction H as [|x l Hs IH Hall]; constructor; [exact IH|].
  eapply Forall_impl; [|exact Hall]. intros y Hy. now apply Qle_bool_iff.
Qed.

(** X13: the table of slow-moving items by category is printed exactly when
    the segment has a row; it then has a row for every category of the
    segment and no other, each with a count of at least 1, in descending
    order of the count, and the counts add up to the size of the segment. *)
Theorem category_analysis_counts (slow : list metric_row) :
  (category_analysis slow = None <-> slow = [])
  /\ forall table, category_analysis slow = Some table ->
       list_sum (map (fun g => Count (snd g)) table) = List.length slow
       /\ Forall (fun g => (1 <= Count (snd g))%nat) table
       /\ StronglySorted (fun a b => (Count (snd b) <= Count (snd a))%nat) table
       /\ (forall c, In c (map fst table) <-> In c (map category_of slow)).
Proof.
  split.
  - destruct slow; simpl; split; intros H; congruence.
  - intros table H.
    destruct (string_groupby_invariants category_of slow) as [_ [_ [Hwf Hperm]]].
    set (gs := groupby String.compare category_of slow) in *.
    set (f := fun rows : list metric_row => {|
                Count := List.length rows;
                Avg_Inventory_Days := round2 (col_mean inventory_days rows);
                Total_Revenue := round2 (col_sum net_revenue_of rows);
                Total_Overstock := round2 (col_sum overstock_col rows) |}).
    set (score := fun g : string * category_row =>
                    inject_Z (Z.of_nat (Count (snd g)))).
    assert (E : table = sort_rows_desc score (agg f gs)).
    { unfold category_analysis in H. destruct slow; [discriminate|].
      injection H as <-. reflexivity. }
    pose proof (sort_rows_desc_perm score (agg f gs)) as P. rewrite <- E in P.
    split; [|split; [|split]].
    + rewrite (Permutation_list_sum
                 (Permutation_map (fun g => Count (snd g)) P)).
      rewrite (length_concat_groups gs f Count) by reflexivity.
      now apply Permutation_length.
    + apply (Permutation_Forall (Permutation_sym P)).
      unfold agg. apply Forall_map. eapply Forall_impl; [|exact Hwf].
      intros [k rs] [Hne _]. simpl in *. destruct rs; [congruence | simpl; lia].
    + rewrite E.
      apply (StronglySorted_impl (fun a b => score b <= score a));
        [|apply sort_rows_desc_sorted].
      intros a b Hab. unfold score in Hab. rewrite <- Zle_Qle in Hab. lia.
    + intros c. rewrite Forall_forall in Hwf. split.
      * intros Hc. apply (Permutation_in _ (Permutation_map fst P)) in Hc.
        rewrite agg_keys in Hc.
        apply in_map_iff in Hc. destruct Hc as [[k rs] [<- Hg]].
        destruct (Hwf _ Hg) as [Hne Hk]. simpl in *.
        destruct rs as [|r rs]; [congruence|].
        inversion Hk as [|? ? Hr _]. subst.
        apply in_map. apply (Permutation_in _ Hperm).
        apply in_concat. exists (r :: rs).
        split; [|now left]. apply in_map_iff. now exists (category_of r, r :: rs).
      * intros Hc. apply in_map_iff in Hc. destruct Hc as [r [<- Hr]].
        apply (Permutation_in _ (Permutation_sym Hperm)) in Hr.
        apply in_concat in Hr. destruct Hr as [rs [Hrs Hr]].
        apply in_map_iff in Hrs. destruct Hrs as [[k rs'] [Ers Hg]].
        simpl in Ers. subst rs'. destruct (Hwf _ Hg) as [_ Hk]. simpl in Hk.
        rewrite Forall_forall in Hk. rewrite (Hk r Hr).
        apply (Permutation_in _ (Permutation_sym (Permutation_map fst P))).
        rewrite agg_keys. apply in_map_iff. now exists (k, rs).
Qed.

Lemma category_analysis_counts_witness :
  exists table, category_analysis tie_frame = Some table
    /\ list_sum (map (fun g => Count (snd g)) table) = 2%nat.
Proof.
  destruct (category_analysis tie_frame) as [table|] eqn:E;
    [|vm_compute in E; discriminate E].
  exists table. split; [reflexivity|].
  exact (proj1 (proj2 (category_analysis_counts tie_frame) table E)).
Defined.

(** * Strategic recommendations *)

Lemma select_extremes_ok (df : list metric_row) :
  df <> [] -> exists ext, select_extremes df = Ok ext.
Proof.
  intros Hdf. unfold select_extremes.
  assert (Hr : regional_scores df <> []).
  { unfold regional_scores, regional_performance, agg.
    now apply map_nonempty, map_nonempty, groupby_nonempty. }
  assert (Hs : seasonal_perf df <> []).
  { unfold seasonal_perf, seasonal_scores, agg.
    now apply sort_values_desc_nonempty, map_nonempty, groupby_nonempty. }
  assert (Hrev : rev (seasonal_perf df) <> []).
  { intros E. apply Hs. apply (f_equal (@rev _)) in E.
    now rewrite rev_involutive in E. }
  unfold index_last.
  destruct (regional_scores df) as [|[k1 v1] l1]; [congruence|].
  destruct (seasonal_perf df) as [|[k2 v2] l2]; [congruence|].
  destruct (rev ((k2, v2) :: l2)) as [|[k3 v3] l3]; [congruence|].
  simpl. eexists. reflexivity.
Qed.

(** X14: [generate_strategic_recommendations] raises exactly on a frame
    without rows, and the error is the ValueError of [idxmax] on the empty
    table of regions; on a frame with rows it returns its list. *)
Theorem strategic_recommendations_raise_iff_empty (df : list metric_row)
    (e : exn) :
  strategic_recommendations df = Raise e <-> df = [] /\ e = ValueError.
Proof.
  split.
  - destruct df as [|m df].
    + vm_compute. intros H. injection H as <-. split; reflexivity.
    + unfold strategic_recommendations. cbv zeta.
      destruct (select_extremes_ok (m :: df)) as [ext E]; [discriminate|].
      rewrite E. simpl. discriminate.
  - intros [-> ->]. reflexivity.
Qed.

Lemma Qsum_nonneg (col : list Q) : Forall (fun x => 0 <= x) col -> 0 <= Qsum col.
Proof.
  induction 1 as [|x l Hx _ IH]; simpl; [apply Qle_refl | lra].
Qed.

Lemma mean_opt_nonneg (col : list Q) (a : Q) :
  Forall (fun x => 0 <= x) col -> mean_opt col = Some a -> 0 <= a.
Proof.
  intros H. destruct col as [|x l]; [discriminate|].
  unfold mean_opt. intros E. injection E as <-.
  apply Qle_div_iff.
  - apply inject_Z_pos. reflexivity.
  - pose proof (Qsum_nonneg _ H) as S. simpl in S. rewrite Qmult_0_l. exact S.
Qed.

Lemma flags_exclusive (df : list metric_row) (cat_data : category_perf) :
  Forall (fun x => 0 <= x) (map inventory_days df) ->
  Forall (fun x => 0 <= x) (map turnover_of df) ->
  excellent_performance (flags_of df cat_data) = true ->
  high_inventory_risk (flags_of df cat_data) = false
  /\ low_turnover (flags_of df cat_data) = false.
Proof.
  intros Hd Ht. unfold flags_of. cbv zeta. cbn [excellent_performance
    high_inventory_risk low_turnover].
  pose proof (mean_opt_nonneg (map inventory_days df)) as Md.
  pose proof (mean_opt_nonneg (map turnover_of df)) as Mt.
  destruct (mean_opt (map inventory_days df)) as [ad|];
    [|simpl; discriminate].
  destruct (mean_opt (map turnover_of df)) as [at_|];
    [|simpl; rewrite andb_false_r; discriminate].
  specialize (Md ad Hd eq_refl). specialize (Mt at_ Ht eq_refl).
  simpl. intros H. apply andb_true_iff in H. destruct H as [H1 H2].
  apply Qlt_bool_iff in H1, H2.
  split; apply Qlt_bool_false_iff; lra.
Qed.

(** X15: on the analysis frame, with sales that are not negative, a category
    judged "excellent performance" is never also flagged for high inventory
    risk or for low turnover, so that it gets at most the overstock
    recommendation. *)
Theorem excellent_excludes_alerts (db : list retail_inventory)
    (g : string * category_perf) :
  Forall (fun s => (0 <= units_sold s)%Z) db ->
  excellent_performance (flags_of (analysis_frame db) (snd g)) = true ->
  high_inventory_risk (flags_of (analysis_frame db) (snd g)) = false
  /\ low_turnover (flags_of (analysis_frame db) (snd g)) = false
  /\ (List.length (recommendations_for (analysis_frame db) g) <= 1)%nat.
Proof.
  intros Hdb Hex. rewrite Forall_forall in Hdb.
  assert (H : high_inventory_risk (flags_of (analysis_frame db) (snd g)) = false
              /\ low_turnover (flags_of (analysis_frame db) (snd g)) = false).
  { apply flags_exclusive; [| |exact Hex]; apply Forall_map, Forall_forall;
      intros m Hm; apply in_analysis_frame in Hm;
      destruct Hm as [s [-> [Hs [Hl _]]]]; pose proof (Hdb s Hs) as Hu.
    - apply Qlt_le_weak.
      change (0 < days_on_hand (inventory_level s) (units_sold s)).
      apply (days_on_hand_gt _ _ _ Hu). q2z.
    - change (0 <= sql_turnover_ratio s). rewrite (turnover_of_stocked s Hl).
      now apply sql_int_div_nonneg. }
  destruct H as [H1 H2]. split; [exact H1|]. split; [exact H2|].
  unfold recommendations_for. cbv zeta. rewrite H1, H2.
  destruct (overstock_alert _); simpl; lia.
Qed.

Lemma excellent_excludes_alerts_witness :
  let db := [stock_row "Toys" "North" "Winter" 100 10 50 0;
             stock_row "Food" "North" "Winter" 100 90 50 0] in
  let g := nth 0 (category_performance (analysis_frame db))
               (EmptyString, {| cp_inventory_days := 0; cp_turnover_ratio := 0;
                                cp_profit_margin := 0; cp_net_revenue := 0;
                                cp_overstock_units := 0 |}) in
  fst g = "Food"%string
  /\ high_inventory_risk (flags_of (analysis_frame db) (snd g)) = false.
Proof.
  intros db g. split; [reflexivity|].
  apply (excellent_excludes_alerts db g).
  - repeat constructor; simpl; lia.
  - vm_compute. reflexivity.
Defined.

(** * Correlation labels *)

Lemma interpret_correlation_cases (r : Q) :
  (7 # 10 <= Qabs r -> interpret_correlation (Some r) = Strong)
  /\ (3 # 10 <= Qabs r -> Qabs r < 7 # 10 ->
      interpret_correlation (Some r) = Moderate)
  /\ (1 # 10 <= Qabs r -> Qabs r < 3 # 10 ->
      interpret_correlation (Some r) = Weak)
  /\ (Qabs r < 1 # 10 -> interpret_correlation (Some r) = VeryWeak).
Proof.
  unfold interpret_correlation. cbv zeta. simpl option_map. unfold ge_value.
  destruct (Qle_bool (7 # 10) (Qabs r)) eqn:E7;
    [apply Qle_bool_iff in E7 | apply Qle_bool_false_iff in E7];
  (destruct (Qle_bool (3 # 10) (Qabs r)) eqn:E3;
    [apply Qle_bool_iff in E3 | apply Qle_bool_false_iff in E3]);
  (destruct (Qle_bool (1 # 10) (Qabs r)) eqn:E1;
    [apply Qle_bool_iff in E1 | apply Qle_bool_false_iff in E1]);
  (split; [|split; [|split]]); intros; try reflexivity; exfalso; lra.
Qed.

(** X16: the label of a correlation depends on its absolute value only and
    never gets weaker as the absolute value grows; a NaN correlation is
    labelled Very Weak. *)
Theorem interpret_correlation_monotone :
  (forall r1 r2 : Q, Qabs r1 <= Qabs r2 ->
     (strength_rank (interpret_correlation (Some r1))
      <= strength_rank (interpret_correlation (Some r2)))%nat)
  /\ (forall r : Q, interpret_correlation (Some (- r))
                    = interpret_correlation (Some r))
  /\ interpret_correlation None = VeryWeak.
Proof.
  split; [|split; [|reflexivity]].
  - intros r1 r2 H.
    destruct (interpret_correlation_cases r1) as [A1 [A2 [A3 A4]]].
    destruct (interpret_correlation_cases r2) as [B1 [B2 [B3 B4]]].
    destruct (Qlt_le_dec (Qabs r1) (1 # 10)) as [C1|C1];
      [rewrite A4 by exact C1; simpl; lia|].
    destruct (Qlt_le_dec (Qabs r1) (3 # 10)) as [C3|C3].
    { rewrite A3 by assumption.
      destruct (Qlt_le_dec (Qabs r2) (3 # 10)) as [D3|D3];
        [rewrite B3 by (try assumption; lra); simpl; lia|].
      destruct (Qlt_le_dec (Qabs r2) (7 # 10)) as [D7|D7];
        [rewrite B2 by assumption | rewrite B1 by assumption]; simpl; lia. }
    destruct (Qlt_le_dec (Qabs r1) (7 # 10)) as [C7|C7].
    { rewrite A2 by assumption.
      destruct (Qlt_le_dec (Qabs r2) (7 # 10)) as [D7|D7];
        [rewrite B2 by (try assumption; lra) | rewrite B1 by assumption];
        simpl; lia. }
    rewrite A1 by assumption. rewrite B1 by lra. simpl. lia.
  - intros r. unfold interpret_correlation, ge_value. cbv zeta.
    cbn [option_map].
    assert (E : forall t, Qle_bool t (Qabs (- r)) = Qle_bool t (Qabs r))
      by (intros t; now rewrite Qabs_opp).
    now rewrite !E.
Qed.

Lemma interpret_correlation_monotone_witness :
  (strength_rank (interpret_correlation (Some (2 # 10)))
   <= strength_rank (interpret_correlation (Some (- (8 # 10)))))%nat.
Proof.
  apply (proj1 interpret_correlation_monotone). vm_compute. discriminate.
Defined.

(** * Loading the CSV: column names *)

Lemma map_chars_compose (f g : ascii -> ascii) (s : string) :
  map_chars g (map_chars f s) = map_chars (fun c => g (f c)) s.
Proof.
  induction s as [|c s IH]; simpl; [reflexivity | now rewrite IH].
Qed.

Lemma clean_column_name_chars (col : string) :
  clean_column_name col = map_chars clean_one col.
Proof.
  unfold clean_column_name, lower, replace_char.
  rewrite !map_chars_compose. reflexivity.
Qed.

Lemma clean_one_facts (c : ascii) :
  clean_char (clean_one c) = true
  /\ clean_one (clean_one c) = clean_one c
  /\ (clean_char c = true -> clean_one c = c)
  /\ (clean_one c = c -> clean_char c = true)
  /\ ((nat_of_ascii c <? 128)%nat = true ->
      (nat_of_ascii (clean_one c) <? 128)%nat = true).
Proof.
  destruct c as [[] [] [] [] [] [] [] []]; vm_compute;
    repeat split; intros; congruence.
Qed.

Lemma map_chars_length (f : ascii -> ascii) (s : string) :
  String.length (map_chars f s) = String.length s.
Proof.
  induction s as [|c s IH]; simpl; [reflexivity | now rewrite IH].
Qed.

(** X18: cleaning an ASCII column name keeps its length, leaves no space,
    slash or capital letter in it, and gives an ASCII name again; cleaning
    twice is the same as cleaning once. *)
Theorem clean_column_name_normalizes (col : string) :
  ascii_only col = true ->
  String.length (clean_column_name col) = String.length col
  /\ all_chars clean_char (clean_column_name col) = true
  /\ ascii_only (clean_column_name col) = true
  /\ clean_column_name (clean_column_name col) = clean_column_name col.
Proof.
  intros Hascii. rewrite !clean_column_name_chars.
  split; [apply map_chars_length|]. split; [|split].
  - clear Hascii. induction col as [|c s IH]; simpl; [reflexivity|].
    rewrite IH. now rewrite (proj1 (clean_one_facts c)).
  - unfold ascii_only in *. induction col as [|c s IH]; simpl in *;
      [reflexivity|].
    apply andb_true_iff in Hascii. destruct Hascii as [Hc Hs].
    rewrite (IH Hs).
    now rewrite (proj2 (proj2 (proj2 (proj2 (clean_one_facts c)))) Hc).
  - clear Hascii. induction col as [|c s IH]; simpl; [reflexivity|].
    rewrite IH. now rewrite (proj1 (proj2 (clean_one_facts c))).
Qed.

Lemma clean_column_name_normalizes_witness :
  String.length (clean_column_name "Holiday/Promotion") = 17%nat
  /\ all_chars clean_char (clean_column_name "Holiday/Promotion") = true.
Proof.
  destruct (clean_column_name_normalizes "Holiday/Promotion"%string eq_refl)
    as [H1 [H2 _]].
  split; [exact H1 | exact H2].
Defined.

(** X19: an ASCII column name is left unchanged by the cleaning exactly
    when it has no space, slash or capital letter; this is the case of every
    column [insert_data_batch] reads, so each of them can be the cleaned form
    of a CSV header. *)
Theorem clean_column_name_fixed_points :
  (forall col, ascii_only col = true ->
     (clean_column_name col = col <-> all_chars clean_char col = true))
  /\ Forall (fun k => clean_column_name k = k /\ ascii_only k = true)
            insert_columns.
Proof.
  split.
  - intros col _. rewrite clean_column_name_chars.
    induction col as [|c s IH]; simpl; [tauto|].
    destruct (clean_one_facts c) as [_ [_ [F1 [F2 _]]]].
    rewrite andb_true_iff. split.
    + intros H. injection H as Hc Hs. split; [now apply F2 | now apply IH].
    + intros [Hc Hs]. f_equal; [now apply F1 | now apply IH].
  - unfold insert_columns. repeat constructor.
Qed.

Lemma clean_column_name_fixed_points_witness :
  clean_column_name "units_sold" = "units_sold"%string.
Proof.
  apply (proj1 clean_column_name_fixed_points "units_sold"%string eq_refl).
  reflexivity.
Defined.

(** * Inserting in batches *)

Lemma firstn_then_skipn {T : Type} (a b : nat) (l : list T) :
  firstn a l ++ firstn b (skipn a l) = firstn (a + b) l.
Proof.
  revert l. induction a as [|a IH]; intros l; simpl; [reflexivity|].
  destruct l as [|x l]; simpl; [now rewrite firstn_nil | now rewrite IH].
Qed.

Lemma nth_map_seq {T : Type} (f : nat -> T) (n i : nat) (d : T) :
  (i < n)%nat -> nth i (map f (seq 0 n)) d = f i.
Proof.
  intros H. rewrite (nth_indep _ d (f 0%nat)) by (now rewrite length_map, length_seq).
  rewrite map_nth, seq_nth by exact H. reflexivity.
Qed.

Section Batches.
Context {T : Type} (df : list T) (st : nat).
Hypothesis st_pos : (0 < st)%nat.

Local Abbreviation total := (List.length df).
Local Abbreviation batch :=
  (fun i : nat => iloc df (i * st) (Nat.min (i * st + st) total)).
Local Abbreviation count := ((total + st - 1) / st)%nat.

Lemma count_bounds : (total <= count * st /\ (count - 1) * st <= total)%nat
                     /\ (0 < total -> (count - 1) * st < total)%nat
                     /\ (total = 0 -> count = 0)%nat.
Proof.
  pose proof (Nat.div_mod_eq (total + st - 1) st) as E.
  pose proof (Nat.mod_upper_bound (total + st - 1) st) as B.
  assert (B' : ((total + st - 1) mod st < st)%nat) by (apply B; lia).
  set (q := ((total + st - 1) / st)%nat) in *.
  set (r := ((total + st - 1) mod st)%nat) in *.
  clearbody q r. repeat split; nia.
Qed.

Lemma concat_batches (k : nat) :
  List.concat (map batch (seq 0 k)) = firstn (k * st) df.
Proof.
  induction k as [|k IH]; [reflexivity|].
  rewrite seq_S, map_app, concat_app, IH. simpl. rewrite app_nil_r.
  unfold iloc. rewrite firstn_then_skipn.
  destruct (Nat.le_gt_cases (k * st + st) total) as [H|H].
  - f_equal. lia.
  - rewrite (firstn_all2 (n := st + k * st)) by lia.
    apply firstn_all2. lia.
Qed.

Lemma batch_length (i : nat) :
  List.length (batch i) = (Nat.min (i * st + st) total - i * st)%nat.
Proof.
  unfold iloc. rewrite length_firstn, length_skipn. lia.
Qed.
End Batches.

Lemma batches_of_positive {T : Type} (df : list T) (batch_size : Z) :
  (0 < batch_size)%Z ->
  batches_of df batch_size
  = Ok (map (fun i => iloc df (i * Z.to_nat batch_size)
                        (Nat.min (i * Z.to_nat batch_size + Z.to_nat batch_size)
                                 (List.length df)))
            (seq 0 ((List.length df + Z.to_nat batch_size - 1)
                    / Z.to_nat batch_size))).
Proof.
  intros H. unfold batches_of, range_from_0.
  destruct (batch_size =? 0)%Z eqn:E0; [apply Z.eqb_eq in E0; lia|].
  destruct (batch_size <? 0)%Z eqn:E1; [apply Z.ltb_lt in E1; lia|].
  cbv zeta. simpl bind. now rewrite map_map.
Qed.

(** X20: with a positive batch size the batches are the frame cut in order:
    put together they give back the frame, there are as many as the number
    of rows divided by the batch size, rounded up, each holds between 1 and
    [batch_size] rows, and every batch but the last is full. *)
Theorem batches_cover_frame {T : Type} (df : list T) (batch_size : Z) :
  (0 < batch_size)%Z ->
  exists batches, batches_of df batch_size = Ok batches
    /\ List.concat batches = df
    /\ List.length batches
       = ((List.length df + Z.to_nat batch_size - 1) / Z.to_nat batch_size)%nat
    /\ Forall (fun b => (1 <= List.length b <= Z.to_nat batch_size)%nat) batches
    /\ (forall i, (S i < List.length batches)%nat ->
          List.length (nth i batches []) = Z.to_nat batch_size).
Proof.
  intros H. eexists. split; [now apply batches_of_positive|].
  set (st := Z.to_nat batch_size).
  assert (Hst : (0 < st)%nat) by (unfold st; lia).
  destruct (count_bounds df st Hst) as [[C1 C2] [C3 C4]].
  set (n := ((List.length df + st - 1) / st)%nat) in *.
  split; [|split; [|split]].
  - rewrite (concat_batches df st Hst n). apply firstn_all2. lia.
  - now rewrite length_map, length_seq.
  - apply Forall_forall. intros b Hb. apply in_map_iff in Hb.
    destruct Hb as [i [<- Hi]]. apply in_seq in Hi.
    rewrite (batch_length df st Hst i).
    assert (i * st <= (n - 1) * st)%nat by nia.
    assert (0 < List.length df)%nat by (destruct (List.length df); [lia | lia]).
    specialize (C3 ltac:(assumption)). lia.
  - intros i Hi. rewrite length_map, length_seq in Hi.
    rewrite (nth_map_seq _ n i) by lia.
    rewrite (batch_length df st Hst i).
    assert (S i * st <= (n - 1) * st)%nat by nia. lia.
Qed.

Lemma batches_cover_frame_witness :
  exists batches, batches_of [1; 2; 3; 4; 5; 6; 7]%Z 3 = Ok batches
    /\ List.concat batches = [1; 2; 3; 4; 5; 6; 7]%Z
    /\ List.length batches = 3%nat.
Proof.
  destruct (batches_cover_frame [1; 2; 3; 4; 5; 6; 7]%Z 3 eq_refl)
    as [batches [H1 [H2 [H3 _]]]].
  exists batches. split; [exact H1|]. split; [exact H2 | exact H3].
Defined.

Section RunBatches.
Context {T U : Type} (prepare : T -> U) (fails : nat -> bool).

Lemma run_batches_no_failure (batches : list (list T)) (i : nat) (table : list U) :
  (forall j, (i <= j < i + List.length batches)%nat -> fails j = false) ->
  run_batches prepare fails i batches table
  = (true, table ++ map prepare (List.concat batches)).
Proof.
  revert i table. induction batches as [|b rest IH]; intros i table H; simpl.
  - now rewrite app_nil_r.
  - rewrite (H i) by (simpl; lia).
    rewrite IH by (intros j Hj; apply H; simpl; lia).
    now rewrite map_app, app_assoc.
Qed.

Lemma run_batches_first_failure (pre : list (list T)) (b : list T)
    (post : list (list T)) (i : nat) (table : list U) :
  (forall j, (i <= j < i + List.length pre)%nat -> fails j = false) ->
  fails (i + List.length pre)%nat = true ->
  run_batches prepare fails i (pre ++ b :: post) table
  = (false, table ++ map prepare (List.concat pre)).
Proof.
  revert i table. induction pre as [|p pre IH]; intros i table H Hk; simpl.
  - rewrite Nat.add_0_r in Hk. now rewrite Hk, app_nil_r.
  - rewrite (H i) by (simpl; lia).
    rewrite IH.
    + now rewrite map_app, app_assoc.
    + intros j Hj. apply H. simpl. lia.
    + simpl in Hk. now rewrite Nat.add_succ_r in Hk.
Qed.
End RunBatches.

(** X21: the outcome of [insert_data_batch].  A batch size of 0 raises
    ValueError; a negative one inserts nothing and still answers True.  With
    a positive batch size: if no batch fails, every row of the frame is
    committed, in order, and the answer is True; if batch number [k] is the
    first to fail, the answer is False and the rows of the [k] batches
    before it stay committed. *)
Theorem insert_data_batch_outcomes {T U : Type} (prepare : T -> U)
    (fails : nat -> bool) (df : list T) (batch_size : Z) (table : list U) :
  let st := Z.to_nat batch_size in
  let n := ((List.length df + st - 1) / st)%nat in
  (batch_size = 0%Z ->
     insert_data_batch prepare fails df batch_size table = Raise ValueError)
  /\ ((batch_size < 0)%Z ->
      insert_data_batch prepare fails df batch_size table = Ok (true, table))
  /\ ((0 < batch_size)%Z ->
      (forall i, (i < n)%nat -> fails i = false) ->
      insert_data_batch prepare fails df batch_size table
      = Ok (true, table ++ map prepare df))
  /\ ((0 < batch_size)%Z ->
      forall k, (k < n)%nat -> fails k = true ->
        (forall i, (i < k)%nat -> fails i = false) ->
        insert_data_batch prepare fails df batch_size table
        = Ok (false, table ++ map prepare (firstn (k * st) df))).
Proof.
  cbv zeta. split; [|split; [|split]].
  - intros ->. reflexivity.
  - intros H. unfold insert_data_batch, batches_of, range_from_0.
    destruct (batch_size =? 0)%Z eqn:E0; [apply Z.eqb_eq in E0; lia|].
    destruct (batch_size <? 0)%Z eqn:E1; [reflexivity | apply Z.ltb_ge in E1; lia].
  - intros H Hok. unfold insert_data_batch.
    rewrite (batches_of_positive df batch_size H). simpl bind.
    assert (Hst : (0 < Z.to_nat batch_size)%nat) by lia.
    rewrite run_batches_no_failure.
    + rewrite (concat_batches df _ Hst).
      destruct (count_bounds df _ Hst) as [[C1 _] _].
      now rewrite firstn_all2 by lia.
    + intros j Hj. rewrite length_map, length_seq in Hj. apply Hok. lia.
  - intros H k Hk Hfail Hok. unfold insert_data_batch.
    rewrite (batches_of_positive df batch_size H). simpl bind.
    assert (Hst : (0 < Z.to_nat batch_size)%nat) by lia.
    set (st := Z.to_nat batch_size) in *.
    set (n := ((List.length df + st - 1) / st)%nat) in *.
    replace n with (k + S (n - S k))%nat by lia.
    rewrite seq_app, map_app. simpl seq. simpl map.
    rewrite run_batches_first_failure.
    + now rewrite (concat_batches df st Hst).
    + intros j Hj. rewrite length_map, length_seq in Hj. apply Hok. lia.
    + now rewrite length_map, length_seq.
Qed.

Lemma insert_data_batch_outcomes_witness :
  insert_data_batch (fun x : Z => x) (fun i => Nat.eqb i 1)
                    [1; 2; 3; 4; 5; 6; 7]%Z 3 [0%Z]
  = Ok (false, [0; 1; 2; 3]%Z).
Proof.
  apply (proj2 (proj2 (proj2 (insert_data_batch_outcomes
           (fun x : Z => x) (fun i => Nat.eqb i 1)
           [1; 2; 3; 4; 5; 6; 7]%Z 3 [0%Z]))) eq_refl 1%nat).
  - simpl. lia.
  - reflexivity.
  - intros i Hi. assert (i = 0%nat) as -> by lia. reflexivity.
Defined.

(** * The view [profit_by_category] *)

Lemma sale_net_split (r : retail_inventory) :
  sale_net r == sale_gross r - sale_discount r.
Proof.
  unfold sale_net, sale_gross, sale_discount, discount_factor. field.
Qed.

Lemma col_sum_split (rows : list retail_inventory) :
  col_sum sale_net rows == col_sum sale_gross rows - col_sum sale_discount rows.
Proof.
  unfold col_sum. induction rows as [|r rows IH]; simpl; [reflexivity|].
  rewrite IH, sale_net_split. ring.
Qed.

Lemma col_sum_bounds {R : Type} (lo hi : R -> Q) (rows : list R) :
  Forall (fun r => lo r <= hi r) rows -> col_sum lo rows <= col_sum hi rows.
Proof.
  unfold col_sum. induction 1 as [|r rows Hr _ IH]; simpl; [apply Qle_refl | lra].
Qed.

Lemma col_sum_pos {R : Type} (col : R -> Q) (rows : list R) :
  rows <> [] -> Forall (fun r => 0 < col r) rows -> 0 < col_sum col rows.
Proof.
  unfold col_sum. intros Hne H. induction H as [|r rows Hr Hrows IH];
    [congruence|]. simpl. destruct rows as [|r' rows'].
  - simpl. lra.
  - assert (0 < Qsum (map col (r' :: rows'))) by (apply IH; discriminate). lra.
Qed.

Lemma in_profit_by_category (db : list retail_inventory)
    (g : string * profit_by_category_row) :
  In g (profit_by_category db) ->
  exists rows, snd g = profit_by_category_of rows /\ rows <> []
    /\ Forall (fun r => In r db /\ (0 < units_sold r)%Z /\ category r = fst g) rows.
Proof.
  unfold profit_by_category. intros H.
  apply (Permutation_in _ (sort_rows_desc_perm _ _)) in H.
  unfold agg in H. apply in_map_iff in H. destruct H as [[k rows] [<- Hg]].
  destruct (string_groupby_invariants category
              (filter (fun r => (0 <? units_sold r)%Z) db))
    as [_ [_ [Hwf Hperm]]].
  rewrite Forall_forall in Hwf. destruct (Hwf _ Hg) as [Hne Hk]. simpl in *.
  exists rows. split; [reflexivity|]. split; [exact Hne|].
  rewrite Forall_forall in *. intros r Hr.
  assert (Hin : In r (filter (fun r => (0 <? units_sold r)%Z) db)).
  { apply (Permutation_in _ Hperm). apply in_concat. exists rows.
    split; [|exact Hr]. apply in_map_iff. now exists (k, rows). }
  apply filter_In in Hin. destruct Hin as [Hdb Hu]. apply Z.ltb_lt in Hu.
  split; [exact Hdb|]. split; [exact Hu | now apply Hk].
Qed.

(** X22: in every row of the view [profit_by_category], at least one sale
    is counted, and the net revenue is the total revenue less the total
    discount amount.  When the prices of the table are positive the profit
    margin percent is defined (not NULL), and with discounts between 0 and
    100 it lies between 0 and 100. *)
Theorem profit_by_category_consistent (db : list retail_inventory)
    (g : string * profit_by_category_row) :
  In g (profit_by_category db) ->
  (1 <= pbc_total_transactions (snd g))%nat
  /\ pbc_net_revenue (snd g)
     == pbc_total_revenue (snd g) - pbc_total_discount_amount (snd g)
  /\ (Forall (fun r => 0 < price r) db ->
      exists m, pbc_profit_margin_percent (snd g) = Some m
        /\ (Forall (fun r => (0 <= discount r <= 100)%Z) db ->
            0 <= m /\ m <= 100)).
Proof.
  intros H. apply in_profit_by_category in H.
  destruct H as [rows [-> [Hne Hrows]]]. cbn [profit_by_category_of
    pbc_total_transactions pbc_net_revenue pbc_total_revenue
    pbc_total_discount_amount pbc_profit_margin_percent].
  split; [destruct rows; [congruence | simpl; lia]|].
  split; [apply col_sum_split|].
  intros Hprice. rewrite Forall_forall in Hprice, Hrows.
  assert (Hgross : 0 < col_sum sale_gross rows).
  { apply col_sum_pos; [exact Hne|]. apply Forall_forall. intros r Hr.
    destruct (Hrows r Hr) as [Hdb [Hu _]]. unfold sale_gross.
    apply Qmult_lt_0_compat; [now apply inject_Z_pos | now apply Hprice]. }
  unfold sql_ratio_percent.
  destruct (Qeq_bool (col_sum sale_gross rows) 0) eqn:E.
  { apply Qeq_bool_iff in E. rewrite E in Hgross.
    exfalso. apply (Qlt_irrefl 0 Hgross). }
  eexists. split; [reflexivity|].
  intros Hdisc. rewrite Forall_forall in Hdisc.
  assert (Hrow : forall r, In r rows ->
            0 <= sale_net r /\ sale_net r <= sale_gross r).
  { intros r Hr. destruct (Hrows r Hr) as [Hdb [Hu _]].
    destruct (discount_factor_range r (Hdisc r Hdb)) as [F0 F1].
    assert (G : 0 < inject_Z (units_sold r) * price r)
      by (apply Qmult_lt_0_compat; [now apply inject_Z_pos | now apply Hprice]).
    unfold sale_net, sale_gross. split; nra. }
  assert (N0 : 0 <= col_sum sale_net rows).
  { apply Qle_trans with (col_sum (fun _ => 0) rows).
    - unfold col_sum. clear. induction rows; simpl; [apply Qle_refl | lra].
    - apply col_sum_bounds, Forall_forall. intros r Hr. now apply Hrow. }
  assert (N1 : col_sum sale_net rows <= col_sum sale_gross rows).
  { apply col_sum_bounds, Forall_forall. intros r Hr. now apply Hrow. }
  set (net := col_sum sale_net rows) in *.
  set (gross := col_sum sale_gross rows) in *.
  assert (R0 : 0 <= net / gross) by (apply Qle_div_iff; [exact Hgross | lra]).
  assert (R1 : net / gross <= 1) by (apply Qdiv_le_iff; [exact Hgross | lra]).
  split; lra.
Qed.

Lemma profit_by_category_consistent_witness :
  let db := [stock_row "Toys" "North" "Winter" 100 10 50 20;
             stock_row "Toys" "South" "Summer" 100 5 10 0] in
  let g := nth 0 (profit_by_category db) (EmptyString, profit_by_category_of []) in
  pbc_net_revenue (snd g)
  == pbc_total_revenue (snd g) - pbc_total_discount_amount (snd g).
Proof.
  intros db g.
  apply (proj1 (proj2 (profit_by_category_consistent db g
                         (or_introl eq_refl)))).
Defined.
